(** * Shallow embedding of the nextui-music-player streaming audio pipeline

    Sources: src/src/player.c (circular buffer, resampler, decode thread,
    audio callback, load/seek) and src/src/radio.c (redirect handling,
    ICY metadata parsing, radio ring buffer).

    Conventions of the embedding:
    - an int16 sample is a [Z]; a stereo frame ([AUDIO_CHANNELS] = 2
      interleaved samples) is a pair [(L, R)];
    - [size_t] counters are [nat]: every subtraction the C code performs on
      them is guarded by the buffer invariants proved below, so no
      wrap-around can occur;
    - a heap array is a [list]; a [memcpy] of [n] elements to offset [off]
      replaces exactly the elements [off .. off+n-1];
    - operations that run under [cb->mutex] are modelled as atomic steps. *)

From Stdlib Require Import String Ascii Bool Arith Lia ZArith List.
Import ListNotations.

Open Scope nat_scope.

Definition frame := (Z * Z)%type.

Definition silent_frame : frame := (0%Z, 0%Z).

(** [memcpy(&dst[off], src, length src)] on an array of elements. *)
Definition memcpy_at {A} (dst : list A) (off : nat) (src : list A) : list A :=
  firstn off dst ++ src ++ skipn (off + length src) dst.

(* ------------------------------------------------------------------ *)
(** ** CircularBuffer (player.c, lines 68-173) *)

Module CircularBuffer.

Record CircularBuffer := mkCB {
  buffer : list frame;        (* cb->buffer, capacity frames *)
  capacity : nat;             (* cb->capacity *)
  write_pos : nat;            (* cb->write_pos *)
  read_pos : nat;             (* cb->read_pos *)
  available : nat             (* cb->available *)
}.

(** [circular_buffer_init]: [malloc_result] is what [malloc] returned
    ([None] for NULL); the fresh memory has arbitrary contents. *)
Definition circular_buffer_init (malloc_result : option (list frame))
    (capacity_frames : nat) : option CircularBuffer :=
  match malloc_result with
  | None => None
  | Some mem => Some (mkCB mem capacity_frames 0 0 0)
  end.

Definition circular_buffer_clear (cb : CircularBuffer) : CircularBuffer :=
  mkCB (buffer cb) (capacity cb) 0 0 0.

Definition circular_buffer_available (cb : CircularBuffer) : nat :=
  available cb.

(** [circular_buffer_write cb data frames]: returns the new buffer and the
    number of frames written. *)
Definition circular_buffer_write (cb : CircularBuffer) (data : list frame)
    (frames : nat) : CircularBuffer * nat :=
  let space := capacity cb - available cb in
  let to_write := if frames <? space then frames else space in
  if to_write =? 0 then (cb, 0) else
  let first_part0 := capacity cb - write_pos cb in
  let first_part := if to_write <? first_part0 then to_write else first_part0 in
  let buf1 := memcpy_at (buffer cb) (write_pos cb) (firstn first_part data) in
  let second_part := to_write - first_part in
  let buf2 := if 0 <? second_part
              then memcpy_at buf1 0 (firstn second_part (skipn first_part data))
              else buf1 in
  (mkCB buf2 (capacity cb) ((write_pos cb + to_write) mod capacity cb)
        (read_pos cb) (available cb + to_write), to_write).

(** [circular_buffer_read cb out frames]: returns the new buffer, the
    caller's output array after the copy, and the number of frames read. *)
Definition circular_buffer_read (cb : CircularBuffer) (out : list frame)
    (frames : nat) : CircularBuffer * list frame * nat :=
  let to_read := if frames <? available cb then frames else available cb in
  if to_read =? 0 then (cb, out, 0) else
  let first_part0 := capacity cb - read_pos cb in
  let first_part := if to_read <? first_part0 then to_read else first_part0 in
  let out1 := memcpy_at out 0 (firstn first_part (skipn (read_pos cb) (buffer cb))) in
  let second_part := to_read - first_part in
  let out2 := if 0 <? second_part
              then memcpy_at out1 first_part (firstn second_part (buffer cb))
              else out1 in
  (mkCB (buffer cb) (capacity cb) (write_pos cb)
        ((read_pos cb + to_read) mod capacity cb) (available cb - to_read),
   out2, to_read).

(** The unread frames, oldest first: slot [(read_pos + i) mod capacity]
    for [i < available]. *)
Definition contents (cb : CircularBuffer) : list frame :=
  map (fun i => nth ((read_pos cb + i) mod capacity cb) (buffer cb) silent_frame)
      (seq 0 (available cb)).

(** States reachable from [circular_buffer_init] by any interleaving of
    write, read and clear (each one atomic under [cb->mutex]). The caller
    of [write] passes at least [frames] frames. *)
Inductive reachable : CircularBuffer -> Prop :=
| reach_init : forall mem cap cb,
    0 < cap -> length mem = cap ->
    circular_buffer_init (Some mem) cap = Some cb -> reachable cb
| reach_write : forall cb data frames,
    reachable cb -> frames <= length data ->
    reachable (fst (circular_buffer_write cb data frames))
| reach_read : forall cb out frames,
    reachable cb -> reachable (fst (fst (circular_buffer_read cb out frames)))
| reach_clear : forall cb,
    reachable cb -> reachable (circular_buffer_clear cb).

(** Structural invariant kept by every operation. *)
Definition wf (cb : CircularBuffer) : Prop :=
  0 < capacity cb /\ length (buffer cb) = capacity cb /\
  read_pos cb < capacity cb /\ available cb <= capacity cb /\
  write_pos cb = (read_pos cb + available cb) mod capacity cb.

End CircularBuffer.

(* ------------------------------------------------------------------ *)
(** ** Memory helpers: an array of C [int]s or bytes indexed by [Z] *)

Definition mem := Z -> Z.

Definition upd (m : mem) (i v : Z) : mem :=
  fun j => if Z.eqb j i then v else m j.

(* ------------------------------------------------------------------ *)
(** ** Radio audio ring (radio.c, lines 71-75, 240-243, 2347-2369) *)

Module Radio.
Local Open Scope Z_scope.

Definition SAMPLE_RATE : Z := 48000.
Definition AUDIO_RING_SIZE : Z := SAMPLE_RATE * 2 * 10.

Inductive RadioState :=
| RADIO_STATE_STOPPED | RADIO_STATE_CONNECTING | RADIO_STATE_BUFFERING
| RADIO_STATE_PLAYING | RADIO_STATE_ERROR.

Definition RadioState_eqb (a b : RadioState) : bool :=
  match a, b with
  | RADIO_STATE_STOPPED, RADIO_STATE_STOPPED
  | RADIO_STATE_CONNECTING, RADIO_STATE_CONNECTING
  | RADIO_STATE_BUFFERING, RADIO_STATE_BUFFERING
  | RADIO_STATE_PLAYING, RADIO_STATE_PLAYING
  | RADIO_STATE_ERROR, RADIO_STATE_ERROR => true
  | _, _ => false
  end.

(** The fields of the radio context used by the audio path; the ring is
    [audio_ring[AUDIO_RING_SIZE]] of int16 samples. *)
Record RadioRing := mkRing {
  audio_ring : mem;
  audio_ring_read : Z;
  audio_ring_write : Z;
  audio_ring_count : Z
}.

(** [for (i = 0; i < n; i++) { buffer[i] = ring[rd]; rd = (rd+1) % SIZE; }]
    starting at index [i]. *)
Fixpoint copy_loop (n : nat) (i : Z) (ring : mem) (rd : Z) (buf : mem) : Z * mem :=
  match n with
  | O => (rd, buf)
  | S n' => copy_loop n' (i + 1) ring ((rd + 1) mod AUDIO_RING_SIZE)
                      (upd buf i (ring rd))
  end.

(** [for (; i < max; i++) buffer[i] = 0;] with [n = max - i] iterations. *)
Fixpoint zero_loop (n : nat) (i : Z) (buf : mem) : mem :=
  match n with
  | O => buf
  | S n' => zero_loop n' (i + 1) (upd buf i 0)
  end.

(** [Radio_getAudioSamples(buffer, max_samples)] (under [audio_mutex]):
    returns the ring after the call, the caller's buffer, and the number
    of samples taken from the ring. *)
Definition Radio_getAudioSamples (r : RadioRing) (buffer : mem) (max_samples : Z)
    : RadioRing * mem * Z :=
  let samples_to_read :=
    if max_samples >? audio_ring_count r then audio_ring_count r else max_samples in
  let '(rd, buf1) := copy_loop (Z.to_nat samples_to_read) 0 (audio_ring r)
                               (audio_ring_read r) buffer in
  let count := audio_ring_count r - samples_to_read in
  let buf2 := zero_loop (Z.to_nat (max_samples - samples_to_read))
                        samples_to_read buf1 in
  (mkRing (audio_ring r) rd (audio_ring_write r) count, buf2, samples_to_read).

(** FIFO view of the ring: the [i]-th oldest sample. *)
Definition ring_at (r : RadioRing) (i : Z) : Z :=
  audio_ring r ((audio_ring_read r + i) mod AUDIO_RING_SIZE).

End Radio.

(* ------------------------------------------------------------------ *)
(** ** Player context (player.h, player.c globals) *)

Module Player.
Import CircularBuffer Radio.
Local Open Scope Z_scope.

Inductive AudioFormat :=
| AUDIO_FORMAT_UNKNOWN | AUDIO_FORMAT_WAV | AUDIO_FORMAT_MP3
| AUDIO_FORMAT_OGG | AUDIO_FORMAT_FLAC | AUDIO_FORMAT_MOD.

Inductive PlayerState :=
| PLAYER_STATE_STOPPED | PLAYER_STATE_PLAYING | PLAYER_STATE_PAUSED.

Definition is_playing (s : PlayerState) : bool :=
  match s with PLAYER_STATE_PLAYING => true | _ => false end.

Definition AUDIO_CHANNELS : Z := 2.
Definition DECODE_CHUNK_FRAMES : Z := 24000.

(** [StreamDecoder]; [decoder_open] stands for [sd->decoder != NULL]. *)
Record StreamDecoder := mkSD {
  format : AudioFormat;
  decoder_open : bool;
  source_sample_rate : Z;
  source_channels : Z;
  total_frames : Z;
  current_frame : Z
}.

(** [PlayerContext] restricted to the fields the streaming pipeline uses.
    [volume] is the 32-bit pattern of the C [float]; floating-point
    arithmetic on it is a parameter of the functions that use it.
    [mutex_held] / [vis_mutex_held]: the mutex is currently owned by
    another thread, so [pthread_mutex_trylock] on it fails. *)
Record PlayerContext := mkPlayer {
  state : PlayerState;
  duration_ms : Z;             (* track_info.duration_ms *)
  position_ms : Z;
  volume : Z;
  repeat : bool;
  vis_buffer : mem;
  vis_buffer_pos : Z;
  vis_mutex_held : bool;
  mutex_held : bool;
  use_streaming : bool;
  stream_buffer : CircularBuffer;
  stream_decoder : StreamDecoder;
  stream_seeking : bool;
  seek_target_frame : Z;
  stream_running : bool;
  resampler_present : bool     (* player.resampler != NULL *)
}.

(** The file-scope state of player.c and the part of radio.c's state the
    audio callback reads. *)
Record World := mkWorld {
  player : PlayerContext;
  audio_position_samples : Z;
  current_sample_rate : Z;
  radio_state : RadioState;
  radio_ring : RadioRing
}.

Definition set_state (p : PlayerContext) (s : PlayerState) : PlayerContext :=
  mkPlayer s (duration_ms p) (position_ms p) (volume p) (repeat p) (vis_buffer p)
    (vis_buffer_pos p) (vis_mutex_held p) (mutex_held p) (use_streaming p)
    (stream_buffer p) (stream_decoder p) (stream_seeking p) (seek_target_frame p)
    (stream_running p) (resampler_present p).

Definition set_position (p : PlayerContext) (pos : Z) : PlayerContext :=
  mkPlayer (state p) (duration_ms p) pos (volume p) (repeat p) (vis_buffer p)
    (vis_buffer_pos p) (vis_mutex_held p) (mutex_held p) (use_streaming p)
    (stream_buffer p) (stream_decoder p) (stream_seeking p) (seek_target_frame p)
    (stream_running p) (resampler_present p).

Definition set_vis (p : PlayerContext) (vb : mem) (vpos : Z) : PlayerContext :=
  mkPlayer (state p) (duration_ms p) (position_ms p) (volume p) (repeat p) vb
    vpos (vis_mutex_held p) (mutex_held p) (use_streaming p)
    (stream_buffer p) (stream_decoder p) (stream_seeking p) (seek_target_frame p)
    (stream_running p) (resampler_present p).

Definition set_stream_buffer (p : PlayerContext) (cb : CircularBuffer) : PlayerContext :=
  mkPlayer (state p) (duration_ms p) (position_ms p) (volume p) (repeat p) (vis_buffer p)
    (vis_buffer_pos p) (vis_mutex_held p) (mutex_held p) (use_streaming p)
    cb (stream_decoder p) (stream_seeking p) (seek_target_frame p)
    (stream_running p) (resampler_present p).

Definition set_stream_decoder (p : PlayerContext) (sd : StreamDecoder) : PlayerContext :=
  mkPlayer (state p) (duration_ms p) (position_ms p) (volume p) (repeat p) (vis_buffer p)
    (vis_buffer_pos p) (vis_mutex_held p) (mutex_held p) (use_streaming p)
    (stream_buffer p) sd (stream_seeking p) (seek_target_frame p)
    (stream_running p) (resampler_present p).

Definition set_seek (p : PlayerContext) (seeking : bool) (target : Z) : PlayerContext :=
  mkPlayer (state p) (duration_ms p) (position_ms p) (volume p) (repeat p) (vis_buffer p)
    (vis_buffer_pos p) (vis_mutex_held p) (mutex_held p) (use_streaming p)
    (stream_buffer p) (stream_decoder p) seeking target
    (stream_running p) (resampler_present p).

Definition set_player (w : World) (p : PlayerContext) : World :=
  mkWorld p (audio_position_samples w) (current_sample_rate w) (radio_state w) (radio_ring w).

Definition set_aps (w : World) (aps : Z) : World :=
  mkWorld (player w) aps (current_sample_rate w) (radio_state w) (radio_ring w).

Definition set_radio_ring (w : World) (r : RadioRing) : World :=
  mkWorld (player w) (audio_position_samples w) (current_sample_rate w) (radio_state w) r.

(** Conversion of an [int64_t] to a 32-bit [int] (two's complement). *)
Definition wrap32 (z : Z) : Z := (z + 2 ^ 31) mod 2 ^ 32 - 2 ^ 31.

(** [Radio_isActive] (radio.c, line 2371). *)
Definition Radio_isActive (s : RadioState) : bool :=
  negb (RadioState_eqb s RADIO_STATE_STOPPED) && negb (RadioState_eqb s RADIO_STATE_ERROR).

(** *** Byte view of the SDL output stream (little-endian int16) *)

Definition load16 (m : mem) (a : Z) : Z :=
  let u := m a + 256 * m (a + 1) in if u >=? 32768 then u - 65536 else u.

Definition store16 (m : mem) (a v : Z) : mem :=
  upd (upd m a (v mod 256)) (a + 1) ((v / 256) mod 256).

(** [memset(m, 0, len)]. *)
Definition memset0 (m : mem) (len : Z) : mem :=
  fun j => if (0 <=? j) && (j <? len) then 0 else m j.

(** The stream seen as [int16_t* out]. *)
Definition samples_of (m : mem) : mem := fun i => load16 m (2 * i).

Fixpoint store_samples (n : nat) (i : Z) (s : mem) (m : mem) : mem :=
  match n with
  | O => m
  | S n' => store_samples n' (i + 1) s (store16 m (2 * i) (s i))
  end.

(** The first [n] stereo frames of the stream. *)
Definition frames_of (m : mem) (n : nat) : list frame :=
  map (fun i => (load16 m (4 * Z.of_nat i), load16 m (4 * Z.of_nat i + 2))) (seq 0 n).

Fixpoint store_frames (i : Z) (fs : list frame) (m : mem) : mem :=
  match fs with
  | [] => m
  | (l, r) :: fs' => store_frames (i + 1) fs' (store16 (store16 m (4 * i) l) (4 * i + 2) r)
  end.

Section AudioCallback.
(** Floating-point volume scaling, not modelled: [volume_is_unity v] is
    [!(v < 0.99f || v > 1.01f)] and [apply_volume v x] is
    [(int16_t)(x * v)]. *)
Variable volume_is_unity : Z -> bool.
Variable apply_volume : Z -> Z -> Z.

Fixpoint volume_loop (n : nat) (i : Z) (v : Z) (s : mem) : mem :=
  match n with
  | O => s
  | S n' => volume_loop n' (i + 1) v (upd s i (apply_volume v (s i)))
  end.

Definition scale_frame (v : Z) (f : frame) : frame :=
  (apply_volume v (fst f), apply_volume v (snd f)).

(** Streaming branch of [audio_callback], entered with [ctx->mutex] held
    and [ctx->state == PLAYER_STATE_PLAYING]. *)
Definition audio_callback_streaming (w : World) (stream : mem) (samples_needed : Z)
    : World * mem :=
  let p := player w in
  let n := Z.to_nat samples_needed in
  let '(cb', out1, samples_read) :=
      circular_buffer_read (stream_buffer p) (frames_of stream n) n in
  let out2 := if (samples_read <? n)%nat
              then firstn samples_read out1 ++ List.repeat silent_frame (n - samples_read)
              else out1 in
  let out3 := if negb (volume_is_unity (volume p))
              then map (scale_frame (volume p)) (firstn samples_read out2)
                   ++ skipn samples_read out2
              else out2 in
  let stream' := store_frames 0 out3 stream in
  let p1 := set_stream_buffer p cb' in
  let p2 :=
    if (0 <? samples_read)%nat && negb (vis_mutex_held p) then
      let vis_samples := Z.min (Z.of_nat samples_read * AUDIO_CHANNELS) 2048 in
      let src := samples_of stream' in
      set_vis p1 (fun j => if (0 <=? j) && (j <? vis_samples) then src j
                           else vis_buffer p1 j) vis_samples
    else p1 in
  let aps := audio_position_samples w + Z.of_nat samples_read in
  let p3 := set_position p2 (wrap32 (Z.quot (aps * 1000) (current_sample_rate w))) in
  let sd := stream_decoder p3 in
  if (total_frames sd <=? current_frame sd) && (circular_buffer_available cb' =? 0)%nat then
    if repeat p3 then
      (mkWorld (set_position (set_seek p3 true 0) 0) 0 (current_sample_rate w)
               (radio_state w) (radio_ring w), stream')
    else
      (mkWorld (set_position (set_state p3 PLAYER_STATE_STOPPED) 0) 0
               (current_sample_rate w) (radio_state w) (radio_ring w), stream')
  else
    (mkWorld p3 aps (current_sample_rate w) (radio_state w) (radio_ring w), stream').

(** [audio_callback(userdata = &player, stream, len)] (player.c, lines
    512-601): the new state of the world and the new contents of the
    [len]-byte output stream. *)
Definition audio_callback (w : World) (stream : mem) (len : Z) : World * mem :=
  let samples_needed := len / (2 * AUDIO_CHANNELS) in
  let p := player w in
  if Radio_isActive (radio_state w) then
    if RadioState_eqb (radio_state w) RADIO_STATE_PLAYING then
      let total := samples_needed * AUDIO_CHANNELS in
      let '(ring', out1, samples_got) :=
          Radio_getAudioSamples (radio_ring w) (samples_of stream) total in
      let out2 := if samples_got <? total
                  then zero_loop (Z.to_nat (total - samples_got)) samples_got out1
                  else out1 in
      let out3 := if negb (volume_is_unity (volume p))
                  then volume_loop (Z.to_nat total) 0 (volume p) out2
                  else out2 in
      (set_radio_ring w ring', store_samples (Z.to_nat total) 0 out3 stream)
    else (w, memset0 stream len)
  else if mutex_held p then (w, memset0 stream len)
  else if negb (is_playing (state p)) then (w, memset0 stream len)
  else if use_streaming p then audio_callback_streaming w stream samples_needed
  else (w, memset0 stream len).

End AudioCallback.

(** [Player_seek(position_ms)] (player.c, lines 1416-1434), atomic under
    [player.mutex]. *)
Definition Player_seek (w : World) (position_ms0 : Z) : World :=
  let p := player w in
  let pos1 := if position_ms0 <? 0 then 0 else position_ms0 in
  let pos := if pos1 >? duration_ms p then duration_ms p else pos1 in
  let p1 := if use_streaming p
            then set_seek p true
                   (Z.quot (pos * source_sample_rate (stream_decoder p)) 1000)
            else p in
  mkWorld (set_position p1 pos) (Z.quot (pos * current_sample_rate w) 1000)
          (current_sample_rate w) (radio_state w) (radio_ring w).

(** [Player_getPosition()]. *)
Definition Player_getPosition (w : World) : Z := position_ms (player w).

(** *** Resampler (player.c, lines 383-440) *)

Section Resampler.
(** [SRC_STATE] of libsamplerate. [float_bufs_ok in out] says whether the
    two [malloc]s of float buffers succeed; [src_convert st input n max
    is_last] is the float path (int16 -> float, [src_process],
    float -> int16 with clipping): the new converter state and either the
    generated frames or [None] when [src_process] reports an error. *)
Variable SRC_STATE : Type.
Variable float_bufs_ok : nat -> nat -> bool.
Variable src_convert :
  SRC_STATE -> list frame -> nat -> nat -> bool -> SRC_STATE * option (list frame).

(** [resample_chunk(input, input_frames, src_rate, dst_rate, output,
    max_output_frames, src_state, is_last)]: the output array after the
    call, the returned frame count and the converter state. *)
Definition resample_chunk (input : list frame) (input_frames : nat)
    (src_rate dst_rate : Z) (output : list frame) (max_output_frames : nat)
    (src_state : SRC_STATE) (is_last : bool) : list frame * nat * SRC_STATE :=
  if src_rate =? dst_rate then
    let to_copy := if (input_frames <? max_output_frames)%nat
                   then input_frames else max_output_frames in
    (memcpy_at output 0 (firstn to_copy input), to_copy, src_state)
  else if negb (float_bufs_ok input_frames max_output_frames) then
    (output, 0%nat, src_state)
  else
    match src_convert src_state (firstn input_frames input) input_frames
                      max_output_frames is_last with
    | (st', None) => (output, 0%nat, st')
    | (st', Some gen) => (memcpy_at output 0 gen, length gen, st')
    end.
End Resampler.

(** *** Decode thread (player.c, lines 444-508) *)

Inductive Event :=
| EvDecoderSeek (frame : Z)       (* stream_decoder_seek(&dec, frame) called *)
| EvBufferClear                   (* circular_buffer_clear called *)
| EvResamplerReset                (* src_reset called *)
| EvBufferWrite (frames : nat)    (* circular_buffer_write of that many frames *)
| EvSleep.                        (* usleep(5000) *)

Section DecodeThread.
(** [STREAM_BUFFER_FRAMES] is defined in a header that is not part of the
    sources. [codec_seek_ok sd f] is the codec's seek result,
    [codec_read sd n] the stereo frames the codec delivers (at most [n]),
    [target_sample_rate] the value of [get_target_sample_rate()] and
    [resample_out frames is_last] the frames [resample_chunk] produces. *)
Variable STREAM_BUFFER_FRAMES : nat.
Variable codec_seek_ok : StreamDecoder -> Z -> bool.
Variable codec_read : StreamDecoder -> nat -> list frame.
Variable target_sample_rate : Z.
Variable resample_out : list frame -> bool -> list frame.

Definition set_current_frame (sd : StreamDecoder) (f : Z) : StreamDecoder :=
  mkSD (format sd) (decoder_open sd) (source_sample_rate sd) (source_channels sd)
       (total_frames sd) f.

(** [stream_decoder_seek] (player.c, lines 324-353). *)
Definition stream_decoder_seek (sd : StreamDecoder) (frame0 : Z) : StreamDecoder :=
  if negb (decoder_open sd) then sd else
  let f1 := if frame0 <? 0 then 0 else frame0 in
  let f := if f1 >? total_frames sd then total_frames sd else f1 in
  if codec_seek_ok sd f then set_current_frame sd f else sd.

(** [stream_decoder_read] (player.c, lines 250-321). *)
Definition stream_decoder_read (sd : StreamDecoder) (frames : nat)
    : list frame * StreamDecoder :=
  if negb (decoder_open sd) then ([], sd) else
  let fs := codec_read sd frames in
  (fs, set_current_frame sd (current_frame sd + Z.of_nat (length fs))).

(** One iteration of the [while (player.stream_running)] loop. *)
Definition stream_iter (w : World) : World * list Event :=
  let p := player w in
  let '(p1, ev1) :=
    if stream_seeking p then
      let sd := stream_decoder_seek (stream_decoder p) (seek_target_frame p) in
      let cb := circular_buffer_clear (stream_buffer p) in
      (set_seek (set_stream_buffer (set_stream_decoder p sd) cb) false (seek_target_frame p),
       [EvDecoderSeek (seek_target_frame p); EvBufferClear]
         ++ (if resampler_present p then [EvResamplerReset] else []))
    else (p, []) in
  let available := circular_buffer_available (stream_buffer p1) in
  if (available <? STREAM_BUFFER_FRAMES / 2)%nat then
    let '(decoded, sd2) := stream_decoder_read (stream_decoder p1)
                                               (Z.to_nat DECODE_CHUNK_FRAMES) in
    let p2 := set_stream_decoder p1 sd2 in
    if (0 <? length decoded)%nat then
      let is_last := total_frames sd2 <=? current_frame sd2 in
      let out := if source_sample_rate sd2 =? target_sample_rate then decoded
                 else resample_out decoded is_last in
      let '(cb', _) := circular_buffer_write (stream_buffer p2) out (length out) in
      (set_player w (set_stream_buffer p2 cb'), ev1 ++ [EvBufferWrite (length out)])
    else (set_player w p2, ev1)
  else (set_player w p1, ev1 ++ [EvSleep]).

(** [fuel] iterations of the loop, stopping when [stream_running] is
    false. *)
Fixpoint stream_loop (fuel : nat) (w : World) : World * list Event :=
  match fuel with
  | O => (w, [])
  | S fuel' =>
      if stream_running (player w) then
        let '(w1, e1) := stream_iter w in
        let '(w2, e2) := stream_loop fuel' w1 in
        (w2, e1 ++ e2)
      else (w, [])
  end.

(** [stream_thread_func]: [alloc_ok] is the outcome of the two work-buffer
    [malloc]s done before the loop. *)
Definition stream_thread_func (alloc_ok : bool) (fuel : nat) (w : World)
    : World * list Event :=
  if alloc_ok then stream_loop fuel w else (w, []).
End DecodeThread.

Definition is_decoder_seek (e : Event) : bool :=
  match e with EvDecoderSeek _ => true | _ => false end.

Definition is_buffer_clear (e : Event) : bool :=
  match e with EvBufferClear => true | _ => false end.

(** *** Format detection and loading (player.c, lines 178-247, 1198-1340) *)

Definition ascii_lower (c : ascii) : ascii :=
  let n := nat_of_ascii c in
  if (65 <=? n)%nat && (n <=? 90)%nat then ascii_of_nat (n + 32) else c.

Fixpoint chars_eqb (a b : list ascii) : bool :=
  match a, b with
  | [], [] => true
  | x :: a', y :: b' => Ascii.eqb x y && chars_eqb a' b'
  | _, _ => false
  end.

(** [strcasecmp(a, b) == 0] on NUL-free strings. *)
Definition strcaseeq (a b : list ascii) : bool :=
  chars_eqb (map ascii_lower a) (map ascii_lower b).

(** [strrchr(s, '.')]: the characters after the last dot, if any. *)
Fixpoint after_last_dot (s : list ascii) : option (list ascii) :=
  match s with
  | [] => None
  | c :: s' =>
      match after_last_dot s' with
      | Some e => Some e
      | None => if Ascii.eqb c "."%char then Some s' else None
      end
  end.

Definition Player_detectFormat (filepath : string) : AudioFormat :=
  match after_last_dot (list_ascii_of_string filepath) with
  | None => AUDIO_FORMAT_UNKNOWN
  | Some ext =>
      let is e := strcaseeq ext (list_ascii_of_string e) in
      if is "mp3"%string then AUDIO_FORMAT_MP3
      else if is "wav"%string then AUDIO_FORMAT_WAV
      else if is "ogg"%string then AUDIO_FORMAT_OGG
      else if is "flac"%string then AUDIO_FORMAT_FLAC
      else if is "mod"%string || is "xm"%string || is "s3m"%string || is "it"%string then AUDIO_FORMAT_MOD
      else AUDIO_FORMAT_UNKNOWN
  end.

Definition is_streamable (f : AudioFormat) : bool :=
  match f with
  | AUDIO_FORMAT_MP3 | AUDIO_FORMAT_WAV | AUDIO_FORMAT_FLAC | AUDIO_FORMAT_OGG => true
  | _ => false
  end.

Section Load.
(** External collaborators of [Player_load]: [codec_open fmt path] is the
    codec's open call ([drmp3_init_file], [drwav_init_file],
    [drflac_open_file], [stb_vorbis_open_filename]) giving the decoder
    handle or [None]; [cb_malloc_ok] and [src_new_ok] are the outcomes of
    the ring-buffer [malloc] and of [src_new]; [target_rate] is
    [get_target_sample_rate()]. *)
Variable codec_open : AudioFormat -> string -> option StreamDecoder.
Variable cb_malloc_ok : bool.
Variable src_new_ok : bool.
Variable target_rate : Z.

(** [stream_decoder_open] *)
Definition stream_decoder_open (filepath : string) : option StreamDecoder :=
  let fmt := Player_detectFormat filepath in
  match fmt with
  | AUDIO_FORMAT_UNKNOWN => None
  | AUDIO_FORMAT_MP3 | AUDIO_FORMAT_WAV | AUDIO_FORMAT_FLAC | AUDIO_FORMAT_OGG =>
      codec_open fmt filepath
  | _ => None
  end.

(** [load_streaming]: the return value and whether [pthread_create] was
    reached (the decode thread spawned). *)
Definition load_streaming (filepath : string) : Z * bool :=
  match stream_decoder_open filepath with
  | None => (-1, false)
  | Some sd =>
      if negb cb_malloc_ok then (-1, false)
      else if negb (source_sample_rate sd =? target_rate) && negb src_new_ok
      then (-1, false)
      else (0, true)
  end.

(** [Player_load(filepath)]: [None] is a NULL path. The preceding
    [Player_stop()] joins any previous decode thread and spawns none. *)
Definition Player_load (audio_initialized : bool) (filepath : option string) : Z * bool :=
  match filepath with
  | None => (-1, false)
  | Some fp =>
      if negb audio_initialized then (-1, false)
      else if is_streamable (Player_detectFormat fp) then load_streaming fp
      else (-1, false)
  end.
End Load.

(** A playing MP3 track (10 s at 44100 Hz, streamed), used to instantiate the player theorems. *)
Definition example_player (held : bool) : PlayerContext :=
  mkPlayer PLAYER_STATE_PLAYING 10000 0 0 false (fun _ => 0%Z) 0 false held true
    (mkCB [silent_frame; silent_frame] 2 0 0 0)
    (mkSD AUDIO_FORMAT_MP3 true 44100 2 441000 0) false 0 true false.

Definition example_world (held : bool) : World :=
  mkWorld (example_player held) 0 48000 RADIO_STATE_STOPPED (mkRing (fun _ => 0%Z) 0 0 0).

End Player.

(* ------------------------------------------------------------------ *)
(** ** C string helpers (the [string.h] calls of radio.c) *)

Module CStr.

Definition NUL : ascii := ascii_of_nat 0.

(** [strncmp(s, p, strlen(p)) == 0]: [p] is a prefix of [s]. *)
Fixpoint prefixb (p s : list ascii) : bool :=
  match p, s with
  | [], _ => true
  | x :: p', y :: s' => Ascii.eqb x y && prefixb p' s'
  | _ :: _, [] => false
  end.

(** [strstr(s, p)]: the offset of the first occurrence of [p] in [s]. *)
Fixpoint strstr (s p : list ascii) : option nat :=
  if prefixb p s then Some 0 else
  match s with
  | [] => None
  | _ :: s' => option_map S (strstr s' p)
  end.

(** [strchr(s, c)]: the offset of the first [c] in [s]. *)
Fixpoint strchr (s : list ascii) (c : ascii) : option nat :=
  match s with
  | [] => None
  | x :: s' => if Ascii.eqb x c then Some 0 else option_map S (strchr s' c)
  end.

(** The C string held by a char array: its characters up to the first
    NUL. *)
Fixpoint cstring (s : list ascii) : list ascii :=
  match s with
  | [] => []
  | x :: s' => if Ascii.eqb x NUL then [] else x :: cstring s'
  end.

End CStr.

(* ------------------------------------------------------------------ *)
(** ** ICY metadata (radio.c, lines 664-692) *)

Module Icy.
Import CStr.

(** The two [RadioMetadata] fields written by [parse_icy_metadata], as the
    C strings they hold. The other fields are left untouched. *)
Record RadioMetadata := mkMeta {
  title : list ascii;     (* radio.metadata.title *)
  artist : list ascii     (* radio.metadata.artist *)
}.

Definition StreamTitle_pat : list ascii := list_ascii_of_string "StreamTitle='".
Definition separator_pat : list ascii := list_ascii_of_string " - ".
Definition quote : ascii := "'"%char.

(** A metadata block [pre StreamTitle='v' post]. *)
Definition icy_block (pre v post : list ascii) : list ascii :=
  pre ++ StreamTitle_pat ++ v ++ quote :: post.

(** [parse_icy_metadata(data, len)]. [title_size] and [artist_size] are
    [sizeof(radio.metadata.title)] and [sizeof(radio.metadata.artist)],
    declared in radio.h, which is not part of the sources. Both arrays
    hold a NUL at their last index (the [memset] in [Radio_play]; the
    [strncpy] calls write at most [size - 1] bytes and the [memmove]
    stays inside the current string), so each [strncpy] leaves the C
    string [firstn (size - 1) src]. *)
Definition parse_icy_metadata (title_size artist_size : nat)
    (md : RadioMetadata) (data : list ascii) (len : nat) : RadioMetadata :=
  let len' := if 4096 <=? len then 4095 else len in
  let meta := cstring (firstn len' data) in
  match strstr meta StreamTitle_pat with
  | None => md
  | Some i =>
      let title_start := skipn (i + 13) meta in
      match strchr title_start quote with
      | None => md
      | Some j =>
          let t := firstn (title_size - 1) (firstn j title_start) in
          match strstr t separator_pat with
          | Some k => mkMeta (skipn (k + 3) t) (firstn (artist_size - 1) (firstn k t))
          | None => mkMeta t []
          end
      end
  end.

End Icy.

(* ------------------------------------------------------------------ *)
(** ** Connection and redirects (radio.c, lines 545-615, 845-851,
       904-1126, 2110-2278) *)

Module RadioNet.
Import CStr Radio.
Local Open Scope Z_scope.

(** What a server answers to a request for a URL, as the two HTTP readers
    ([parse_headers] for direct streams, [fetch_url_content] for HLS) see
    it. *)
Inductive HttpResponse :=
| ConnectFailed (msg : string)        (* URL parse, DNS, TCP or TLS failure *)
| HeaderFailed (msg : string)         (* unreadable, invalid or 4xx/5xx headers *)
| Redirected (location : string)      (* 3xx status line with a Location header *)
| Content (body : list ascii).        (* 2xx status (or ICY) and the body *)

(** A server: URLs with their answers; any other URL cannot be reached. *)
Definition Server := list (string * HttpResponse).

Fixpoint serve (srv : Server) (url : string) : HttpResponse :=
  match srv with
  | [] => ConnectFailed "Connection failed"
  | (u, r) :: srv' => if String.eqb u url then r else serve srv' url
  end.

(** [is_hls_url] *)
Definition is_hls_url (url : string) : bool :=
  let s := list_ascii_of_string url in
  match Player.after_last_dot s with
  | Some ext => Player.strcaseeq ("."%char :: ext) (list_ascii_of_string ".m3u8")
  | None => false
  end
  || match strstr s (list_ascii_of_string ".m3u8") with
     | Some _ => true
     | None => false
     end.

(** [fetch_url_content(url, buffer, buffer_size, NULL, 0)]: the return
    value and the bytes stored in [buffer]. The C function calls itself on
    every redirect, with no bound; [fuel] bounds the number of calls, and
    [None] means the calls have not returned when it runs out. *)
Fixpoint fetch_url_content (fuel : nat) (buffer_size : nat) (srv : Server)
    (url : string) : option (Z * list ascii) :=
  match fuel with
  | O => None
  | S fuel' =>
      match serve srv url with
      | ConnectFailed _ | HeaderFailed _ => Some (-1, [])
      | Redirected loc =>
          fetch_url_content fuel' buffer_size srv (substring 0 1023 loc)
      | Content body =>
          let got := firstn (buffer_size - 1) body in
          Some (Z.of_nat (length got), got)
      end
  end.

Section Play.
(** [RADIO_MAX_URL] is declared in radio.h, which is not part of the
    sources. [parse_m3u8_playlist body base] is the number of segments
    found in a playlist; [thread_ok] is the result of [pthread_create].
    The [malloc] of the playlist buffer is taken to succeed. *)
Variable RADIO_MAX_URL : nat.
Variable parse_m3u8_playlist : list ascii -> string -> Z.
Variable thread_ok : bool.

Definition max_redirects : nat := 5.

(** [parse_headers]: [0], [1] (redirect, with [radio.redirect_url]) or
    [-1] (with [radio.error_msg]). *)
Inductive HeaderResult := HdrOk | HdrRedirect (url : string) | HdrError (msg : string).

Definition parse_headers (r : HttpResponse) : HeaderResult :=
  match r with
  | ConnectFailed msg | HeaderFailed msg => HdrError msg
  | Redirected loc =>
      if (0 <? String.length loc)%nat && (String.length loc <? RADIO_MAX_URL)%nat
      then HdrRedirect loc else HdrError "Redirect without Location"
  | Content _ => HdrOk
  end.

(** The outcome of [Radio_play]: return value, [radio.state] and
    [radio.error_msg]. *)
Definition PlayResult := (Z * RadioState * string)%type.

Definition start_thread : PlayResult :=
  if thread_ok then (0, RADIO_STATE_CONNECTING, ""%string)
  else (-1, RADIO_STATE_ERROR, "Thread creation failed"%string).

(** The loop [for (redirect_count = 0; redirect_count <= max_redirects;
    redirect_count++)] of the direct-stream path; [iters] is the number of
    iterations left. *)
Fixpoint redirect_loop (iters redirect_count : nat) (srv : Server)
    (current_url : string) : PlayResult :=
  match iters with
  | O => start_thread
  | S iters' =>
      match serve srv current_url with
      | ConnectFailed msg => (-1, RADIO_STATE_ERROR, msg)
      | r =>
          match parse_headers r with
          | HdrOk => start_thread
          | HdrError msg => (-1, RADIO_STATE_ERROR, msg)
          | HdrRedirect loc =>
              if String.eqb loc "" then (-1, RADIO_STATE_ERROR, "Empty redirect URL"%string)
              else
                let current_url' := substring 0 (RADIO_MAX_URL - 1) loc in
                if (redirect_count =? max_redirects)%nat
                then (-1, RADIO_STATE_ERROR, "Too many redirects"%string)
                else redirect_loop iters' (S redirect_count) srv current_url'
          end
      end
  end.

(** [Radio_play(url)] up to the start of the streaming thread; [None]
    when the HLS playlist fetch has not returned within [fuel] calls. *)
Definition Radio_play (fuel : nat) (srv : Server) (url : string) : option PlayResult :=
  if is_hls_url url then
    match fetch_url_content fuel (64 * 1024) srv url with
    | None => None
    | Some (len, body) =>
        if len <=? 0 then Some (-1, RADIO_STATE_ERROR, "Failed to fetch playlist"%string)
        else if parse_m3u8_playlist body url <=? 0
        then Some (-1, RADIO_STATE_ERROR, "No segments in playlist"%string)
        else Some start_thread
    end
  else Some (redirect_loop (S max_redirects) 0 srv (substring 0 (RADIO_MAX_URL - 1) url)).
End Play.

(** A redirect chain: each URL answers with a redirect to the next one,
    the last one with [body]. *)
Fixpoint chain_server (urls : list string) (body : list ascii) : Server :=
  match urls with
  | [] => []
  | [u] => [(u, Content body)]
  | u :: ((v :: _) as rest) => (u, Redirected v) :: chain_server rest body
  end.

Definition direct_chain : list string :=
  ["http://r.example/0"; "http://r.example/1"; "http://r.example/2";
   "http://r.example/3"; "http://r.example/4"; "http://r.example/5";
   "http://r.example/6"]%string.

Definition hls_chain : list string :=
  ["http://h.example/0.m3u8"; "http://h.example/1.m3u8"; "http://h.example/2.m3u8";
   "http://h.example/3.m3u8"; "http://h.example/4.m3u8"; "http://h.example/5.m3u8";
   "http://h.example/6.m3u8"]%string.

Definition playlist_body : list ascii :=
  list_ascii_of_string "#EXTM3U".

Definition hls_loop_url : string := "http://h.example/loop.m3u8".

Definition hls_loop_server : Server := [(hls_loop_url, Redirected hls_loop_url)].

End RadioNet.

(* ------------------------------------------------------------------ *)
(** ** Tag helpers (player.c, lines 848-917 and 1146-1164) *)

Module TagText.
Local Open Scope Z_scope.

(** A byte is a [Z] in [0, 255]; [byte_at d i] is [data[i]]. *)
Definition byte_at (d : list Z) (i : nat) : Z := nth i d 0.

(** [read_syncsafe_int] *)
Definition read_syncsafe_int (d : list Z) : Z :=
  Z.lor (Z.lor (Z.lor (Z.shiftl (Z.land (byte_at d 0) 127) 21)
                      (Z.shiftl (Z.land (byte_at d 1) 127) 14))
               (Z.shiftl (Z.land (byte_at d 2) 127) 7))
        (Z.land (byte_at d 3) 127).

(** [read_be32] *)
Definition read_be32 (d : list Z) : Z :=
  Z.lor (Z.lor (Z.lor (Z.shiftl (byte_at d 0) 24) (Z.shiftl (byte_at d 1) 16))
               (Z.shiftl (byte_at d 2) 8))
        (byte_at d 3).

Definition NUL : ascii := ascii_of_nat 0.

Definition is_trim_char (c : ascii) : bool :=
  Ascii.eqb c " "%char || Ascii.eqb c NUL.

(** The loop [while (len > 0 && (dest[len-1] == ' ' || dest[len-1] == '\0'))
    dest[--len] = '\0';]: the final [len]. *)
Fixpoint trim_loop (len : nat) (dest : list ascii) : nat :=
  match len with
  | O => O
  | S len' => if is_trim_char (nth len' dest NUL) then trim_loop len' dest else len
  end.

(** [copy_metadata_string(dest, src, max_len)] on non-NULL pointers, with
    C strings as their characters: the C string left in [dest]. *)
Definition copy_metadata_string (dest src : list ascii) (max_len : nat) : list ascii :=
  if (max_len =? 0)%nat then dest else
  let len := if (max_len <=? length src)%nat then (max_len - 1)%nat else length src in
  let d := firstn len src in
  firstn (trim_loop len d) d.

(** The body of the UTF-16 loops: [dest[j++] = (char)ch] for
    [0 < ch < 128] and for [128 <= ch < 256]. *)
Definition keep_unit (ch : Z) : bool :=
  if (0 <? ch) && (ch <? 128) then true
  else if (128 <=? ch) && (ch <? 256) then true
  else false.

(** [for (i = 0; i + 1 < src_len && j < max_len - 1; i += 2)]: [src] holds
    the bytes from [i] on, [n] is [src_len - i] and [room] is
    [max_len - 1 - j]; [le] selects the byte order. The bytes written to
    [dest] before the final NUL. *)
Fixpoint utf16_loop (le : bool) (src : list Z) (n room : nat) : list Z :=
  match src with
  | b0 :: b1 :: rest =>
      if (2 <=? n)%nat && (0 <? room)%nat then
        let ch := if le then Z.lor b0 (Z.shiftl b1 8) else Z.lor (Z.shiftl b0 8) b1 in
        if keep_unit ch then ch :: utf16_loop le rest (n - 2) (room - 1)
        else utf16_loop le rest (n - 2) room
      else []
  | _ => []
  end.

(** [utf16le_to_ascii(dest, src, src_len, max_len)] and
    [utf16be_to_ascii]: the C string written to [dest] (as byte values),
    or [None] when [max_len == 0] (nothing written). Bytes of [src] past
    its end are not modelled: the theorems take [src_len <= length src]. *)
Definition utf16le_to_ascii (src : list Z) (src_len max_len : nat) : option (list Z) :=
  if (max_len =? 0)%nat then None else Some (utf16_loop true src src_len (max_len - 1)).

Definition utf16be_to_ascii (src : list Z) (src_len max_len : nat) : option (list Z) :=
  if (max_len =? 0)%nat then None else Some (utf16_loop false src src_len (max_len - 1)).

(** [strncasecmp(a, b, n) == 0] on C strings. *)
Fixpoint strncaseeq (a b : list ascii) (n : nat) : bool :=
  match n with
  | O => true
  | S n' =>
      match a, b with
      | [], [] => true
      | x :: a', y :: b' =>
          Ascii.eqb (Player.ascii_lower x) (Player.ascii_lower y) && strncaseeq a' b' n'
      | _, _ => false
      end
  end.

(** The text fields of [player.track_info]; their sizes are declared in
    player.h, which is not part of the sources. *)
Record TrackText := mkTrackText {
  ti_title : list ascii;
  ti_artist : list ascii;
  ti_album : list ascii
}.

Section Vorbis.
Variables title_size artist_size album_size : nat.

(** [parse_vorbis_comment(comment)] on a non-NULL comment. *)
Definition parse_vorbis_comment (ti : TrackText) (comment : list ascii) : TrackText :=
  match CStr.strchr comment "="%char with
  | None => ti
  | Some key_len =>
      let value := skipn (S key_len) comment in
      if strncaseeq comment (list_ascii_of_string "TITLE") key_len && (key_len =? 5)%nat then
        mkTrackText (copy_metadata_string (ti_title ti) value title_size)
                    (ti_artist ti) (ti_album ti)
      else if strncaseeq comment (list_ascii_of_string "ARTIST") key_len && (key_len =? 6)%nat then
        mkTrackText (ti_title ti) (copy_metadata_string (ti_artist ti) value artist_size)
                    (ti_album ti)
      else if strncaseeq comment (list_ascii_of_string "ALBUM") key_len && (key_len =? 5)%nat then
        mkTrackText (ti_title ti) (ti_artist ti)
                    (copy_metadata_string (ti_album ti) value album_size)
      else ti
  end.
End Vorbis.

End TagText.

(* ------------------------------------------------------------------ *)
(** ** Playback control (player.c, lines 85-95, 356-378, 1342-1414, 1468-1480) *)

Module PlayerControl.
Import CircularBuffer Radio Player.
Local Open Scope Z_scope.

(** [circular_buffer_free(cb)]: the buffer pointer becomes NULL (an empty
    array) and every counter is reset. *)
Definition circular_buffer_free (cb : CircularBuffer) : CircularBuffer :=
  mkCB [] 0 0 0 0.

(** [stream_decoder_close(sd)]. *)
Definition stream_decoder_close (sd : StreamDecoder) : StreamDecoder :=
  if negb (decoder_open sd) then sd else
  mkSD AUDIO_FORMAT_UNKNOWN false (source_sample_rate sd) (source_channels sd)
       (total_frames sd) (current_frame sd).

(** The player's world together with the paused flag of the SDL audio
    device ([SDL_PauseAudioDevice(dev, 1)] sets it, [..., 0] clears it). *)
Definition Sys := (World * bool)%type.

(** [Player_play()]: the return value and the new state. *)
Definition Player_play (s : Sys) : Z * Sys :=
  let '(w, paused) := s in
  let p := player w in
  if negb (use_streaming p) || negb (decoder_open (stream_decoder p)) then (-1, s)
  else (0, (set_player w (set_state p PLAYER_STATE_PLAYING), false)).

(** [Player_pause()]. *)
Definition Player_pause (s : Sys) : Sys :=
  let '(w, paused) := s in
  let p := player w in
  if is_playing (state p) then (set_player w (set_state p PLAYER_STATE_PAUSED), true)
  else s.

(** [Player_togglePause()]. *)
Definition Player_togglePause (s : Sys) : Sys :=
  let '(w, paused) := s in
  let p := player w in
  match state p with
  | PLAYER_STATE_PLAYING => (set_player w (set_state p PLAYER_STATE_PAUSED), true)
  | PLAYER_STATE_PAUSED => (set_player w (set_state p PLAYER_STATE_PLAYING), false)
  | PLAYER_STATE_STOPPED => s
  end.

(** [Player_stop()]: the decode thread is stopped and joined, the device
    paused, the position reset, the streaming resources released and
    [track_info] zeroed (so [duration_ms] becomes 0). *)
Definition Player_stop (s : Sys) : Sys :=
  let '(w, paused) := s in
  let p := player w in
  let us := use_streaming p in
  let running := if us && stream_running p then false else stream_running p in
  let p' :=
    mkPlayer PLAYER_STATE_STOPPED 0 0 (volume p) (repeat p) (vis_buffer p)
      (vis_buffer_pos p) (vis_mutex_held p) (mutex_held p)
      (if us then false else use_streaming p)
      (if us then circular_buffer_free (stream_buffer p) else stream_buffer p)
      (if us then stream_decoder_close (stream_decoder p) else stream_decoder p)
      (stream_seeking p) (seek_target_frame p) running
      (if us && resampler_present p then false else resampler_present p) in
  (mkWorld p' 0 (current_sample_rate w) (radio_state w) (radio_ring w), true).

(** [Player_getVisBuffer(buffer, max_samples)]: [None] is a NULL buffer;
    returns the count and the caller's buffer after the copy. *)
Definition Player_getVisBuffer (p : PlayerContext) (buffer : option mem)
    (max_samples : Z) : Z * option mem :=
  match buffer with
  | None => (0, None)
  | Some b =>
      if max_samples <=? 0 then (0, Some b) else
      let samples_to_copy :=
        if vis_buffer_pos p >? max_samples then max_samples else vis_buffer_pos p in
      if samples_to_copy >? 0 then
        (samples_to_copy,
         Some (fun j => if (0 <=? j) && (j <? samples_to_copy) then vis_buffer p j else b j))
      else (samples_to_copy, Some b)
  end.

End PlayerControl.

(* ------------------------------------------------------------------ *)
(** ** URL handling, station list and MP3 sync search (radio.c, lines
    292-343, 854-902, 1679-1688, 2037-2061, 2411-2429) *)

Module RadioUrl.
Import CStr.
Local Open Scope Z_scope.

Definition HLS_MAX_URL_LEN : nat := 1024.

(** [isspace] and [isdigit] in the C locale. *)
Definition is_space (c : ascii) : bool :=
  let n := nat_of_ascii c in (n =? 32)%nat || ((9 <=? n)%nat && (n <=? 13)%nat).

Definition is_digit (c : ascii) : bool :=
  let n := nat_of_ascii c in (48 <=? n)%nat && (n <=? 57)%nat.

Fixpoint atoi_digits (s : list ascii) (acc : Z) : Z :=
  match s with
  | [] => acc
  | c :: s' =>
      if is_digit c then atoi_digits s' (acc * 10 + Z.of_nat (nat_of_ascii c - 48))
      else acc
  end.

(** The mathematical value [strtol(s, NULL, 10)] reads: leading white
    space, an optional sign, then decimal digits. *)
Fixpoint strtol_digits_value (s : list ascii) : Z :=
  match s with
  | [] => 0
  | c :: s' =>
      if is_space c then strtol_digits_value s'
      else if Ascii.eqb c "-"%char then - atoi_digits s' 0
      else if Ascii.eqb c "+"%char then atoi_digits s' 0
      else atoi_digits s 0
  end.

Definition LONG_MIN : Z := - 2 ^ 63.
Definition LONG_MAX : Z := 2 ^ 63 - 1.

(** [strtol(s, NULL, 10)] with a 64-bit [long]: out-of-range values
    saturate at [LONG_MIN] / [LONG_MAX]. *)
Definition strtol10 (s : list ascii) : Z :=
  Z.max LONG_MIN (Z.min LONG_MAX (strtol_digits_value s)).

(** Conversion of a [long] to a 32-bit [int], modulo [2^32] as GCC does. *)
Definition to_int (v : Z) : Z := (v + 2 ^ 31) mod 2 ^ 32 - 2 ^ 31.

(** [atoi(s)] as glibc implements it: [(int) strtol(s, NULL, 10)]. The C
    standard leaves values outside the [int] range undefined. *)
Definition atoi (s : list ascii) : Z := to_int (strtol10 s).

(** [strrchr(s, c)]: the offset of the last [c] in [s]. *)
Fixpoint strrchr (s : list ascii) (c : ascii) : option nat :=
  match s with
  | [] => None
  | x :: s' =>
      match strrchr s' c with
      | Some i => Some (S i)
      | None => if Ascii.eqb x c then Some 0%nat else None
      end
  end.

Definition http_prefix : list ascii := list_ascii_of_string "http://".
Definition https_prefix : list ascii := list_ascii_of_string "https://".
Definition slash : ascii := "/"%char.
Definition colon : ascii := ":"%char.

(** The outcome of [parse_url_safe]: [-1], a write past the end of the
    [path] buffer ([strcpy(path, "/")] with [path_size] 1), or [0] with
    the [host], [port], [path] and [is_https] it stores. *)
Inductive UrlResult :=
| UrlError
| UrlOverflow
| UrlOk (host : list ascii) (port : Z) (path : list ascii) (is_https : bool).

(** [parse_url_safe(url, host, host_size, &port, path, path_size,
    &is_https)] on a non-NULL [url] and buffers. *)
Definition parse_url_safe (url : list ascii) (host_size path_size : Z) : UrlResult :=
  if (host_size <? 1) || (path_size <? 1) then UrlError else
  let '(start, is_https, port0) :=
    if prefixb https_prefix url then (skipn 8 url, true, 443)
    else if prefixb http_prefix url then (skipn 7 url, false, 80)
    else (url, false, 80) in
  let finish (path : list ascii) (path_idx : nat) :=
    let '(port, host_len0) :=
      match strchr start colon with
      | Some j => if (j <? path_idx)%nat then (atoi (skipn (S j) start), j)
                  else (port0, path_idx)
      | None => (port0, path_idx)
      end in
    let host_len :=
      if Z.of_nat host_len0 >=? host_size then Z.to_nat (host_size - 1) else host_len0 in
    UrlOk (firstn host_len start) port path is_https in
  match strchr start slash with
  | Some i => finish (firstn (Z.to_nat (path_size - 1)) (skipn i start)) i
  | None => if path_size <? 2 then UrlOverflow else finish [slash] (length start)
  end.

(** [parse_url]: the buffers of [connect_stream] and
    [fetch_url_content]. *)
Definition parse_url (url : list ascii) : UrlResult := parse_url_safe url 256 512.

(** [get_base_url(url, base, base_size)] for [base_size >= 1] (every
    caller passes [HLS_MAX_URL_LEN]): the string left in [base]. *)
Definition get_base_url (url : list ascii) (base_size : nat) : list ascii :=
  let base := firstn (base_size - 1) url in
  match strrchr base slash with
  | Some i => if (8 <? i)%nat then firstn (S i) base else base
  | None => base
  end.

(** What [resolve_url] does to [result]: stores a string, leaves it as it
    was, or writes past its end. *)
Inductive Resolved :=
| Written (r : list ascii)
| Unchanged
| Overflow.

(** [resolve_url(base, relative, result, result_size)]. *)
Definition resolve_url (base relative : list ascii) (result_size : nat) : Resolved :=
  let concat :=
    if (result_size =? 0)%nat then Unchanged
    else Written (firstn (result_size - 1) (base ++ relative)) in
  if prefixb http_prefix relative || prefixb https_prefix relative then
    if (result_size =? 0)%nat then Overflow
    else Written (firstn (result_size - 1) relative)
  else
    match relative with
    | c :: _ =>
        if Ascii.eqb c slash then
          match strstr base (list_ascii_of_string "://") with
          | None => Unchanged
          | Some k =>
              match strchr (skipn (k + 3) base) slash with
              | Some e =>
                  let host_len := (k + 3 + e)%nat in
                  if (result_size <=? host_len)%nat then Overflow
                  else Written (firstn host_len base
                                ++ firstn (result_size - host_len - 1) relative)
              | None => concat
              end
          end
        else concat
    | [] => concat
    end.

(** [find_mp3_sync(buf, size)]: the loop [for (i = 0; i < size - 1; i++)]
    from index [i], with [n] iterations left. *)
Fixpoint find_mp3_sync_loop (buf : list Z) (i n : nat) : Z :=
  match n with
  | O => -1
  | S n' =>
      if (nth i buf 0 =? 255) && (Z.land (nth (S i) buf 0) 224 =? 224) then Z.of_nat i
      else find_mp3_sync_loop buf (S i) n'
  end.

Definition find_mp3_sync (buf : list Z) (size : Z) : Z :=
  find_mp3_sync_loop buf 0 (Z.to_nat (size - 1)).

(** *** The station list *)

Record RadioStation := mkStation {
  st_name : list ascii;
  st_url : list ascii;
  st_genre : list ascii;
  st_slogan : list ascii
}.

Section Stations.
(** The sizes declared in radio.h, which is not part of the sources. The
    list is [radio.stations[0 .. radio.station_count - 1]]. *)
Variables RADIO_MAX_STATIONS RADIO_MAX_NAME RADIO_MAX_URL : nat.

(** [Radio_addStation(name, url, genre, slogan)]; [None] is a NULL
    genre or slogan. *)
Definition Radio_addStation (stations : list RadioStation) (name url : list ascii)
    (genre slogan : option (list ascii)) : Z * list RadioStation :=
  if (RADIO_MAX_STATIONS <=? length stations)%nat then (-1, stations) else
  let s := mkStation (firstn (RADIO_MAX_NAME - 1) name) (firstn (RADIO_MAX_URL - 1) url)
             (firstn 63 (match genre with Some g => g | None => [] end))
             (firstn 127 (match slogan with Some g => g | None => [] end)) in
  (Z.of_nat (length (stations ++ [s])) - 1, stations ++ [s]).

(** [Radio_removeStation(index)]: the [memmove] closes the gap. *)
Definition Radio_removeStation (stations : list RadioStation) (index : Z)
    : list RadioStation :=
  if (index <? 0) || (index >=? Z.of_nat (length stations)) then stations
  else firstn (Z.to_nat index) stations ++ skipn (S (Z.to_nat index)) stations.

(** [Radio_stationExists(url)]. *)
Fixpoint Radio_stationExists (stations : list RadioStation) (url : list ascii) : bool :=
  match stations with
  | [] => false
  | s :: rest => if Player.chars_eqb (st_url s) url then true
                 else Radio_stationExists rest url
  end.

(** The index at which the loop of [Radio_removeStationByUrl] stops. *)
Fixpoint url_index (stations : list RadioStation) (url : list ascii) : option nat :=
  match stations with
  | [] => None
  | s :: rest => if Player.chars_eqb (st_url s) url then Some 0%nat
                 else option_map S (url_index rest url)
  end.

(** [Radio_removeStationByUrl(url)]. *)
Definition Radio_removeStationByUrl (stations : list RadioStation) (url : list ascii)
    : bool * list RadioStation :=
  match url_index stations url with
  | Some i => (true, Radio_removeStation stations (Z.of_nat i))
  | None => (false, stations)
  end.
End Stations.

End RadioUrl.

(* ================================================================== *)
(** * Proofs *)

Ltac nat_cases :=
  repeat match goal with
  | |- context [?a <? ?b] => destruct (Nat.ltb_spec a b)
  | |- context [?a <=? ?b] => destruct (Nat.leb_spec a b)
  | |- context [?a =? ?b] => destruct (Nat.eqb_spec a b)
  | H : context [?a <? ?b] |- _ => destruct (Nat.ltb_spec a b)
  | H : context [?a <=? ?b] |- _ => destruct (Nat.leb_spec a b)
  end; simpl in *.

Lemma length_memcpy_at {A} (dst src : list A) off :
  off + length src <= length dst -> length (memcpy_at dst off src) = length dst.
Proof.
  intros H. unfold memcpy_at.
  rewrite !length_app, length_firstn, length_skipn. lia.
Qed.

Lemma nth_memcpy_at {A} (dst src : list A) off k d :
  off + length src <= length dst ->
  nth k (memcpy_at dst off src) d =
  if (off <=? k) && (k <? off + length src) then nth (k - off) src d
  else nth k dst d.
Proof.
  intros H. unfold memcpy_at.
  assert (Hf : length (firstn off dst) = off) by (rewrite length_firstn; lia).
  destruct (Nat.ltb_spec k off).
  - rewrite app_nth1 by lia. rewrite nth_firstn.
    nat_cases; try lia; reflexivity.
  - rewrite app_nth2 by lia. rewrite Hf.
    destruct (Nat.ltb_spec (k - off) (length src)).
    + rewrite app_nth1 by lia. nat_cases; try lia; reflexivity.
    + rewrite app_nth2 by lia. rewrite nth_skipn.
      nat_cases; try lia. f_equal. lia.
Qed.

Lemma mod_small2 x c : 0 < c -> x < 2 * c -> x mod c = if x <? c then x else x - c.
Proof.
  intros Hc Hx. destruct (Nat.ltb_spec x c).
  - apply Nat.mod_small; assumption.
  - symmetry. apply (Nat.mod_unique x c 1); lia.
Qed.

Module CircularBufferFacts.
Import CircularBuffer.

Lemma length_contents cb : length (contents cb) = available cb.
Proof. unfold contents. rewrite length_map, length_seq. reflexivity. Qed.

Lemma nth_contents cb i d : i < available cb ->
  nth i (contents cb) d =
  nth ((read_pos cb + i) mod capacity cb) (buffer cb) silent_frame.
Proof.
  intros H. unfold contents.
  set (f := fun i => nth ((read_pos cb + i) mod capacity cb) (buffer cb) silent_frame).
  rewrite (nth_indep _ d (f 0)) by (rewrite length_map, length_seq; lia).
  rewrite (map_nth f), seq_nth by lia. reflexivity.
Qed.

Lemma clear_wf cb : wf cb -> wf (circular_buffer_clear cb).
Proof.
  intros (Hc & Hl & Hr & Ha & Hw). unfold wf, circular_buffer_clear; simpl.
  repeat split; try lia. rewrite Nat.Div0.mod_0_l. reflexivity.
Qed.

Lemma write_spec cb data frames :
  wf cb -> frames <= length data ->
  let '(cb', n) := circular_buffer_write cb data frames in
  n = Nat.min frames (capacity cb - available cb) /\
  capacity cb' = capacity cb /\ read_pos cb' = read_pos cb /\
  available cb' = available cb + n /\
  write_pos cb' = (write_pos cb + n) mod capacity cb /\
  length (buffer cb') = capacity cb /\
  forall k d, k < capacity cb ->
    nth k (buffer cb') d =
      (let j := (k + capacity cb - write_pos cb) mod capacity cb in
       if j <? n then nth j data d else nth k (buffer cb) d).
Proof.
  intros (Hc & Hl & Hr & Ha & Hw) Hd.
  assert (Hwc : write_pos cb < capacity cb) by (rewrite Hw; apply Nat.mod_upper_bound; lia).
  unfold circular_buffer_write.
  set (n := if frames <? capacity cb - available cb then frames
            else capacity cb - available cb).
  assert (Hn : n = Nat.min frames (capacity cb - available cb))
    by (unfold n; nat_cases; lia).
  destruct (Nat.eqb_spec n 0) as [Hn0 | Hn0].
  - rewrite Hn0 in *. simpl. repeat split; try lia.
    rewrite Nat.add_0_r. symmetry. apply Nat.mod_small. lia.
  - set (f := if n <? capacity cb - write_pos cb then n else capacity cb - write_pos cb).
    assert (Hf : f = Nat.min n (capacity cb - write_pos cb)) by (unfold f; nat_cases; lia).
    assert (Hlf : length (firstn f data) = f) by (rewrite length_firstn; lia).
    set (buf1 := memcpy_at (buffer cb) (write_pos cb) (firstn f data)).
    assert (Hl1 : length buf1 = capacity cb)
      by (unfold buf1; rewrite length_memcpy_at; lia).
    assert (Hls : length (firstn (n - f) (skipn f data)) = n - f)
      by (rewrite length_firstn, length_skipn; lia).
    simpl. repeat split; try lia.
    + destruct (0 <? n - f); [rewrite length_memcpy_at|]; lia.
    + intros k d Hk.
      assert (Hb1 : nth k buf1 d =
                    if (write_pos cb <=? k) && (k <? write_pos cb + f)
                    then nth (k - write_pos cb) data d else nth k (buffer cb) d).
      { unfold buf1. rewrite nth_memcpy_at by lia. rewrite Hlf.
        nat_cases; try reflexivity. rewrite nth_firstn. nat_cases; try lia; reflexivity. }
      rewrite (mod_small2 _ _ Hc) by lia.
      destruct (Nat.ltb_spec 0 (n - f)).
      * rewrite nth_memcpy_at by lia. rewrite Hls, Hb1.
        nat_cases; try lia; try reflexivity.
        -- rewrite nth_firstn, nth_skipn. nat_cases; try lia. f_equal; lia.
        -- f_equal; lia.
      * rewrite Hb1. nat_cases; try lia; try reflexivity. f_equal; lia.
Qed.
Lemma write_wf cb data frames :
  wf cb -> frames <= length data -> wf (fst (circular_buffer_write cb data frames)).
Proof.
  intros Hwf Hd. pose proof (write_spec cb data frames Hwf Hd) as Hs.
  destruct (circular_buffer_write cb data frames) as [cb' n].
  destruct Hs as (Hn & Hc' & Hr' & Ha' & Hw' & Hl' & _).
  destruct Hwf as (Hc & Hl & Hr & Ha & Hw). unfold wf; simpl.
  rewrite Hc', Hr', Ha', Hw', Hw.
  repeat split; try lia.
  rewrite Nat.Div0.add_mod_idemp_l. f_equal. lia.
Qed.

Lemma write_contents cb data frames :
  wf cb -> frames <= length data ->
  let '(cb', n) := circular_buffer_write cb data frames in
  contents cb' = contents cb ++ firstn n data.
Proof.
  intros Hwf Hd. pose proof (write_spec cb data frames Hwf Hd) as Hs.
  destruct (circular_buffer_write cb data frames) as [cb' n].
  destruct Hs as (Hn & Hc' & Hr' & Ha' & Hw' & Hl' & Hnth).
  destruct Hwf as (Hc & Hl & Hr & Ha & Hw).
  apply nth_ext with (d := silent_frame) (d' := silent_frame).
  { rewrite length_app, !length_contents, length_firstn. lia. }
  intros i Hi. rewrite length_contents in Hi.
  rewrite nth_contents by lia. rewrite Hc', Hr'.
  assert (Hk : (read_pos cb + i) mod capacity cb < capacity cb)
    by (apply Nat.mod_upper_bound; lia).
  rewrite (Hnth _ _ Hk). cbv zeta.
  rewrite Hw, !(mod_small2 _ _ Hc) by (try lia; nat_cases; lia).
  nat_cases; nat_cases; try lia.
  all: first
    [ rewrite app_nth1 by (rewrite length_contents; lia);
      rewrite nth_contents by lia; rewrite (mod_small2 _ _ Hc) by lia;
      nat_cases; try lia; reflexivity
    | rewrite app_nth2 by (rewrite length_contents; lia);
      rewrite length_contents, nth_firstn; nat_cases; try lia;
      f_equal; lia ].
Qed.

Lemma read_spec cb out frames :
  wf cb -> frames <= length out ->
  let '(cb', out', n) := circular_buffer_read cb out frames in
  n = Nat.min frames (available cb) /\
  wf cb' /\ length out' = length out /\
  (forall i d, nth i out' d = if i <? n then nth i (contents cb) d else nth i out d) /\
  contents cb' = skipn n (contents cb).
Proof.
  intros Hwf Hout. pose proof Hwf as (Hc & Hl & Hr & Ha & Hw).
  unfold circular_buffer_read.
  set (n := if frames <? available cb then frames else available cb).
  assert (Hn : n = Nat.min frames (available cb)) by (unfold n; nat_cases; lia).
  destruct (Nat.eqb_spec n 0) as [Hn0 | Hn0].
  - simpl. repeat split; try assumption; try lia; reflexivity.
  - set (f := if n <? capacity cb - read_pos cb then n else capacity cb - read_pos cb).
    assert (Hf : f = Nat.min n (capacity cb - read_pos cb)) by (unfold f; nat_cases; lia).
    assert (Hl1 : length (firstn f (skipn (read_pos cb) (buffer cb))) = f)
      by (rewrite length_firstn, length_skipn; lia).
    set (out1 := memcpy_at out 0 (firstn f (skipn (read_pos cb) (buffer cb)))).
    assert (Hlo1 : length out1 = length out) by (unfold out1; rewrite length_memcpy_at; lia).
    assert (Hl2 : length (firstn (n - f) (buffer cb)) = n - f)
      by (rewrite length_firstn; lia).
    assert (Hnth1 : forall i d, nth i out1 d =
              if i <? f then nth (read_pos cb + i) (buffer cb) d else nth i out d).
    { intros i d. unfold out1. rewrite nth_memcpy_at by lia. rewrite Hl1.
      nat_cases; try lia; try reflexivity.
      rewrite nth_firstn, nth_skipn. nat_cases; try lia. f_equal; lia. }
    assert (Hcont : forall i d, i < n -> nth i (contents cb) d =
              nth ((read_pos cb + i) mod capacity cb) (buffer cb) d).
    { intros i d Hi. rewrite nth_contents by lia. apply nth_indep.
      rewrite Hl. apply Nat.mod_upper_bound. lia. }
    simpl. repeat split.
    + exact Hn.
    + simpl. lia.
    + simpl. exact Hl.
    + simpl. apply Nat.mod_upper_bound. lia.
    + simpl. lia.
    + simpl. rewrite Hw. rewrite Nat.Div0.add_mod_idemp_l. f_equal. lia.
    + destruct (0 <? n - f); [rewrite length_memcpy_at|]; lia.
    + intros i d. destruct (Nat.ltb_spec 0 (n - f)).
      * rewrite nth_memcpy_at by lia. rewrite Hl2, Hnth1.
        destruct (Nat.ltb_spec i n) as [Hi | Hi].
        -- rewrite (Hcont i d Hi). rewrite (mod_small2 _ _ Hc) by lia.
           nat_cases; try lia; try reflexivity.
           rewrite nth_firstn. nat_cases; try lia. f_equal; lia.
        -- nat_cases; try lia; reflexivity.
      * rewrite Hnth1.
        destruct (Nat.ltb_spec i n) as [Hi | Hi].
        -- rewrite (Hcont i d Hi). rewrite (mod_small2 _ _ Hc) by lia.
           nat_cases; try lia; reflexivity.
        -- nat_cases; try lia; reflexivity.
    + apply nth_ext with (d := silent_frame) (d' := silent_frame).
      { rewrite length_skipn, !length_contents. simpl. lia. }
      intros i Hi. rewrite length_contents in Hi. simpl in Hi.
      rewrite nth_skipn, !nth_contents by (simpl; lia). simpl.
      rewrite Nat.Div0.add_mod_idemp_l. f_equal. f_equal. lia.
Qed.

Lemma reachable_wf cb : reachable cb -> wf cb.
Proof.
  induction 1 as [mem cap cb Hc Hl Hi | cb data frames _ IH Hd | cb out frames _ IH | cb _ IH].
  - injection Hi as <-. unfold wf; simpl. repeat split; try lia.
    rewrite Nat.Div0.mod_0_l. reflexivity.
  - apply write_wf; assumption.
  - destruct (Nat.le_gt_cases frames (length out)) as [Ho | Ho].
    + pose proof (read_spec cb out frames IH Ho) as Hs.
      destruct (circular_buffer_read cb out frames) as [[cb' out'] n].
      simpl. apply Hs.
    + (* the buffer state after a read does not depend on [out] *)
      assert (E : fst (fst (circular_buffer_read cb out frames)) =
                  fst (fst (circular_buffer_read cb (repeat silent_frame frames) frames))).
      { unfold circular_buffer_read. destruct (_ =? 0); reflexivity. }
      rewrite E.
      pose proof (read_spec cb (repeat silent_frame frames) frames IH
                    (Nat.eq_le_incl _ _ (eq_sym (repeat_length _ _)))) as Hs.
      destruct (circular_buffer_read cb (repeat silent_frame frames) frames)
        as [[cb' out'] n].
      simpl. apply Hs.
  - apply clear_wf; assumption.
Qed.

End CircularBufferFacts.

Import CircularBuffer CircularBufferFacts.

(** C2 (as stated, refuted): the relation
    [available == (write_pos - read_pos) mod capacity] fails on a full
    buffer, where [write_pos = read_pos] but [available = capacity]. A
    one-frame buffer after one write is such a reachable state. *)
Lemma circular_buffer_invariant_cex :
  let cb := fst (circular_buffer_write (mkCB [silent_frame] 1 0 0 0) [(1%Z, 1%Z)] 1) in
  reachable cb /\
  Z.of_nat (available cb) <>
    ((Z.of_nat (write_pos cb) - Z.of_nat (read_pos cb)) mod Z.of_nat (capacity cb))%Z.
Proof.
  split.
  - apply reach_write; [| simpl; lia].
    apply (reach_init [silent_frame] 1); [lia | reflexivity | reflexivity].
  - vm_compute. discriminate.
Qed.

(** C2 (amended): in every state reachable from [circular_buffer_init] by
    interleaved writes, reads and clears, [available <= capacity], both
    positions lie in [0, capacity), and [available] is congruent to
    [write_pos - read_pos] modulo [capacity]: it equals
    [(write_pos - read_pos) mod capacity] when the buffer is not full,
    while a full buffer has [write_pos = read_pos] and
    [available = capacity]. [circular_buffer_write] returns
    [min frames (capacity - available)], appends exactly that many
    frames after the unread ones without changing them, and on a full
    buffer returns 0 and leaves the buffer unchanged. *)
Theorem circular_buffer_invariant (cb : CircularBuffer) :
  reachable cb ->
  available cb <= capacity cb /\
  write_pos cb < capacity cb /\ read_pos cb < capacity cb /\
  (Z.of_nat (available cb) mod Z.of_nat (capacity cb) =
     (Z.of_nat (write_pos cb) - Z.of_nat (read_pos cb)) mod Z.of_nat (capacity cb))%Z /\
  (available cb < capacity cb ->
     Z.of_nat (available cb) =
       ((Z.of_nat (write_pos cb) - Z.of_nat (read_pos cb)) mod Z.of_nat (capacity cb))%Z) /\
  (available cb = capacity cb -> write_pos cb = read_pos cb) /\
  forall (data : list frame) (frames : nat), frames <= length data ->
    let '(cb', n) := circular_buffer_write cb data frames in
    n = Nat.min frames (capacity cb - available cb) /\
    contents cb' = contents cb ++ firstn n data /\
    (available cb = capacity cb -> n = 0 /\ cb' = cb).
Proof.
  intros Hreach. pose proof (reachable_wf cb Hreach) as Hwf.
  pose proof Hwf as (Hc & Hl & Hr & Ha & Hw).
  assert (Hcong : (Z.of_nat (available cb) mod Z.of_nat (capacity cb) =
     (Z.of_nat (write_pos cb) - Z.of_nat (read_pos cb)) mod Z.of_nat (capacity cb))%Z).
  { rewrite Hw, Nat2Z.inj_mod, Zminus_mod_idemp_l, Nat2Z.inj_add. f_equal. lia. }
  split; [exact Ha |].
  split; [rewrite Hw; apply Nat.mod_upper_bound; lia |].
  split; [exact Hr |].
  split; [exact Hcong |].
  split.
  { intros Hlt. rewrite <- Hcong. symmetry. apply Z.mod_small. lia. }
  split.
  { intros Hfull. rewrite Hw, Hfull.
    replace (read_pos cb + capacity cb) with (read_pos cb + 1 * capacity cb) by lia.
    rewrite Nat.Div0.mod_add. apply Nat.mod_small. exact Hr. }
  intros data frames Hd.
  pose proof (write_spec cb data frames Hwf Hd) as Hs.
  pose proof (write_contents cb data frames Hwf Hd) as Hct.
  destruct (circular_buffer_write cb data frames) as [cb' n] eqn:E.
  destruct Hs as (Hn & _).
  split; [exact Hn |]. split; [exact Hct |].
  intros Hfull. assert (Hn0 : n = 0) by lia. split; [exact Hn0 |].
  unfold circular_buffer_write in E. rewrite Hfull, Nat.sub_diag in E.
  destruct (Nat.ltb_spec frames 0); [lia |]. simpl in E.
  injection E as <- _. reflexivity.
Qed.

(** A one-frame buffer after one write: full, with [write_pos = read_pos]. *)
Lemma circular_buffer_invariant_witness :
  let cb := fst (circular_buffer_write (mkCB [silent_frame] 1 0 0 0) [(1%Z, 1%Z)] 1) in
  reachable cb /\
  available cb = capacity cb /\
  (available cb <= capacity cb /\
   write_pos cb < capacity cb /\ read_pos cb < capacity cb /\
   (Z.of_nat (available cb) mod Z.of_nat (capacity cb) =
      (Z.of_nat (write_pos cb) - Z.of_nat (read_pos cb)) mod Z.of_nat (capacity cb))%Z /\
   (available cb < capacity cb ->
      Z.of_nat (available cb) =
        ((Z.of_nat (write_pos cb) - Z.of_nat (read_pos cb)) mod Z.of_nat (capacity cb))%Z) /\
   (available cb = capacity cb -> write_pos cb = read_pos cb) /\
   forall (data : list frame) (frames : nat), frames <= length data ->
     let '(cb', n) := circular_buffer_write cb data frames in
     n = Nat.min frames (capacity cb - available cb) /\
     contents cb' = contents cb ++ firstn n data /\
     (available cb = capacity cb -> n = 0 /\ cb' = cb)).
Proof.
  intros cb.
  assert (H : reachable cb).
  { apply reach_write; [| simpl; lia].
    apply (reach_init [silent_frame] 1); [lia | reflexivity | reflexivity]. }
  split; [exact H |]. split; [reflexivity |].
  exact (circular_buffer_invariant cb H).
Defined.

(** C3: writing [N < C] frames into a freshly initialised buffer of
    capacity [C] and then reading [N] frames returns [N] frames equal to
    the written ones, in order. *)
Theorem circular_buffer_roundtrip (C N : nat) (mem data out : list frame)
    (cb0 : CircularBuffer) :
  N < C -> length mem = C -> length data = N -> N <= length out ->
  circular_buffer_init (Some mem) C = Some cb0 ->
  let '(cb1, written) := circular_buffer_write cb0 data N in
  let '(cb2, out', nread) := circular_buffer_read cb1 out N in
  written = N /\ nread = N /\ firstn N out' = data.
Proof.
  intros HNC Hm Hd Ho Hi. injection Hi as <-.
  set (cb0 := mkCB mem C 0 0 0).
  assert (Hwf0 : wf cb0)
    by (unfold wf; simpl; repeat split; try lia; rewrite Nat.Div0.mod_0_l; reflexivity).
  assert (HdN : N <= length data) by lia.
  pose proof (write_spec cb0 data N Hwf0 HdN) as Hs.
  pose proof (write_contents cb0 data N Hwf0 HdN) as Hct.
  pose proof (write_wf cb0 data N Hwf0 HdN) as Hwf1.
  destruct (circular_buffer_write cb0 data N) as [cb1 w] eqn:E1.
  simpl in Hwf1. destruct Hs as (Hw & _ & _ & Ha1 & _).
  simpl in Hw, Ha1. assert (HwN : w = N) by lia.
  assert (Hc1 : contents cb1 = data).
  { rewrite Hct. unfold contents at 1. simpl. rewrite HwN, <- Hd. apply firstn_all. }
  pose proof (read_spec cb1 out N Hwf1 Ho) as Hr.
  destruct (circular_buffer_read cb1 out N) as [[cb2 out'] r].
  destruct Hr as (Hr & _ & Hlo & Hnth & _).
  assert (HrN : r = N) by lia.
  split; [exact HwN |]. split; [exact HrN |].
  apply nth_ext with (d := silent_frame) (d' := silent_frame).
  { rewrite length_firstn. lia. }
  intros i Hi. rewrite length_firstn in Hi.
  rewrite nth_firstn. rewrite Hnth, HrN, Hc1.
  destruct (Nat.ltb_spec i N); [reflexivity | lia].
Qed.

Lemma circular_buffer_roundtrip_witness :
  let mem := [silent_frame; silent_frame; silent_frame] in
  let data := [(1%Z, 2%Z); (3%Z, 4%Z)] in
  let out := [silent_frame; silent_frame] in
  2 < 3 /\ length mem = 3 /\ length data = 2 /\ 2 <= length out /\
  circular_buffer_init (Some mem) 3 = Some (mkCB mem 3 0 0 0) /\
  (let '(cb1, written) := circular_buffer_write (mkCB mem 3 0 0 0) data 2 in
   let '(cb2, out', nread) := circular_buffer_read cb1 out 2 in
   written = 2 /\ nread = 2 /\ firstn 2 out' = data).
Proof.
  intros mem data out.
  split; [lia |]. split; [reflexivity |]. split; [reflexivity |].
  split; [simpl; lia |]. split; [reflexivity |].
  apply (circular_buffer_roundtrip 3 2 mem data out); [lia | reflexivity | reflexivity | simpl; lia | reflexivity].
Defined.

Module RadioFacts.
Import Radio.
Local Open Scope Z_scope.

Lemma ring_size_pos : 0 < AUDIO_RING_SIZE.
Proof. unfold AUDIO_RING_SIZE, SAMPLE_RATE. lia. Qed.

Lemma copy_loop_spec n : forall i ring rd buf,
  0 <= rd < AUDIO_RING_SIZE ->
  let '(rd', buf') := copy_loop n i ring rd buf in
  rd' = (rd + Z.of_nat n) mod AUDIO_RING_SIZE /\
  forall j, buf' j = if (i <=? j) && (j <? i + Z.of_nat n)
                     then ring ((rd + (j - i)) mod AUDIO_RING_SIZE) else buf j.
Proof.
  pose proof ring_size_pos as Hs.
  induction n as [| n IH]; intros i ring rd buf Hrd; cbn [copy_loop].
  - split.
    + rewrite Z.add_0_r. symmetry. apply Z.mod_small. lia.
    + intros j. destruct (Z.leb_spec i j); destruct (Z.ltb_spec j (i + Z.of_nat 0)); simpl; try lia; reflexivity.
  - assert (Hrd1 : 0 <= (rd + 1) mod AUDIO_RING_SIZE < AUDIO_RING_SIZE)
      by (apply Z.mod_pos_bound; lia).
    specialize (IH (i + 1) ring ((rd + 1) mod AUDIO_RING_SIZE) (upd buf i (ring rd)) Hrd1).
    destruct (copy_loop n (i + 1) ring ((rd + 1) mod AUDIO_RING_SIZE) (upd buf i (ring rd)))
      as [rd' buf'].
    destruct IH as [Hr Hb]. split.
    + rewrite Hr, Zplus_mod_idemp_l. f_equal. lia.
    + intros j. rewrite Hb. unfold upd.
      destruct (Z.leb_spec (i + 1) j); destruct (Z.ltb_spec j (i + 1 + Z.of_nat n));
        destruct (Z.leb_spec i j); destruct (Z.ltb_spec j (i + Z.of_nat (S n)));
        destruct (Z.eqb_spec j i); cbn [andb]; try lia; try reflexivity.
      * rewrite Zplus_mod_idemp_l. f_equal. f_equal. lia.
      * subst j. rewrite Z.sub_diag, Z.add_0_r, Z.mod_small by lia. reflexivity.
Qed.

Lemma zero_loop_spec n : forall i buf j,
  zero_loop n i buf j = if (i <=? j) && (j <? i + Z.of_nat n) then 0 else buf j.
Proof.
  induction n as [| n IH]; intros i buf j; cbn [zero_loop].
  - destruct (Z.leb_spec i j); destruct (Z.ltb_spec j (i + Z.of_nat 0)); simpl; try lia; reflexivity.
  - rewrite IH. unfold upd.
    destruct (Z.leb_spec (i + 1) j); destruct (Z.ltb_spec j (i + 1 + Z.of_nat n));
      destruct (Z.leb_spec i j); destruct (Z.ltb_spec j (i + Z.of_nat (S n)));
      destruct (Z.eqb_spec j i); cbn [andb]; try lia; reflexivity.
Qed.

End RadioFacts.

Import Radio RadioFacts.

(** C10: [Radio_getAudioSamples(buffer, max_samples)] with
    [max_samples >= 0] writes exactly the entries [0 .. max_samples-1] of
    [buffer]: the first [min(max_samples, audio_ring_count)] are the
    oldest ring samples in FIFO order, the rest are zero; it returns the
    number of samples consumed, the ring count drops by exactly that
    number and stays non-negative, and the remaining samples keep their
    FIFO order. *)
Theorem Radio_getAudioSamples_spec (r : RadioRing) (buffer : mem) (max_samples : Z) :
  (0 <= max_samples)%Z -> (0 <= audio_ring_count r)%Z ->
  (0 <= audio_ring_read r < AUDIO_RING_SIZE)%Z ->
  let '(r', buf', k) := Radio_getAudioSamples r buffer max_samples in
  k = Z.min max_samples (audio_ring_count r) /\
  (forall i, (0 <= i < k)%Z -> buf' i = ring_at r i) /\
  (forall i, (k <= i < max_samples)%Z -> buf' i = 0%Z) /\
  (forall i, (i < 0 \/ max_samples <= i)%Z -> buf' i = buffer i) /\
  audio_ring_count r' = (audio_ring_count r - k)%Z /\
  (0 <= audio_ring_count r')%Z /\
  (forall i, (0 <= i < audio_ring_count r')%Z -> ring_at r' i = ring_at r (k + i)).
Proof.
  intros Hmax Hcnt Hrd. pose proof ring_size_pos as Hs.
  unfold Radio_getAudioSamples.
  set (k := if (max_samples >? audio_ring_count r)%Z then audio_ring_count r else max_samples).
  assert (Hk : k = Z.min max_samples (audio_ring_count r))
    by (unfold k; destruct (Z.gtb_spec max_samples (audio_ring_count r)); lia).
  pose proof (copy_loop_spec (Z.to_nat k) 0 (audio_ring r) (audio_ring_read r) buffer Hrd) as Hc.
  destruct (copy_loop (Z.to_nat k) 0 (audio_ring r) (audio_ring_read r) buffer) as [rd buf1].
  destruct Hc as [Hrd' Hb1].
  rewrite Z2Nat.id in Hrd', Hb1 by lia.
  simpl. split; [exact Hk |]. split; [| split; [| split; [| split; [| split]]]].
  - intros i Hi. rewrite zero_loop_spec, Hb1. unfold ring_at.
    destruct (Z.leb_spec k i); destruct (Z.leb_spec 0 i); destruct (Z.ltb_spec i (0 + k));
      simpl; try lia; f_equal; f_equal; lia.
  - intros i Hi. rewrite zero_loop_spec, Z2Nat.id by lia.
    destruct (Z.leb_spec k i); destruct (Z.ltb_spec i (k + (max_samples - k)));
      simpl; try lia; reflexivity.
  - intros i Hi. rewrite zero_loop_spec, Z2Nat.id by lia. rewrite Hb1.
    destruct (Z.leb_spec k i); destruct (Z.ltb_spec i (k + (max_samples - k)));
      destruct (Z.leb_spec 0 i); destruct (Z.ltb_spec i (0 + k)); simpl; try lia;
      reflexivity.
  - reflexivity.
  - lia.
  - intros i Hi. unfold ring_at. simpl. rewrite Hrd', Zplus_mod_idemp_l.
    f_equal. f_equal. lia.
Qed.

Lemma Radio_getAudioSamples_spec_witness :
  let r := mkRing (fun i => (i + 100)%Z) 0 3 3 in
  (0 <= 5)%Z /\ (0 <= audio_ring_count r)%Z /\
  (0 <= audio_ring_read r < AUDIO_RING_SIZE)%Z /\
  (let '(r', buf', k) := Radio_getAudioSamples r (fun _ => 9%Z) 5 in
   k = Z.min 5 (audio_ring_count r) /\
   (forall i, (0 <= i < k)%Z -> buf' i = ring_at r i) /\
   (forall i, (k <= i < 5)%Z -> buf' i = 0%Z) /\
   (forall i, (i < 0 \/ 5 <= i)%Z -> buf' i = 9%Z) /\
   audio_ring_count r' = (audio_ring_count r - k)%Z /\
   (0 <= audio_ring_count r')%Z /\
   (forall i, (0 <= i < audio_ring_count r')%Z -> ring_at r' i = ring_at r (k + i))).
Proof.
  intros r. split; [lia |]. split; [simpl; lia |].
  split; [unfold AUDIO_RING_SIZE, SAMPLE_RATE; simpl; lia |].
  apply (Radio_getAudioSamples_spec r (fun _ => 9%Z) 5);
    [lia | simpl; lia | unfold AUDIO_RING_SIZE, SAMPLE_RATE; simpl; lia].
Defined.

Import Player.

(** C1: when radio is not active and [pthread_mutex_trylock(&ctx->mutex)]
    fails, [audio_callback] sets exactly the [len] bytes of the stream to
    zero, leaves every other byte alone, and changes no player (or radio)
    state. *)
Theorem audio_callback_trylock_fail (volume_is_unity : Z -> bool)
    (apply_volume : Z -> Z -> Z) (w : World) (stream : mem) (len : Z) :
  Radio_isActive (radio_state w) = false ->
  mutex_held (player w) = true ->
  let '(w', stream') := audio_callback volume_is_unity apply_volume w stream len in
  w' = w /\
  (forall j, (0 <= j < len)%Z -> stream' j = 0%Z) /\
  (forall j, (j < 0 \/ len <= j)%Z -> stream' j = stream j).
Proof.
  intros Hradio Hheld. unfold audio_callback. rewrite Hradio, Hheld.
  split; [reflexivity |]. split.
  - intros j Hj. unfold memset0.
    destruct (Z.leb_spec 0 j); destruct (Z.ltb_spec j len); simpl; lia.
  - intros j Hj. unfold memset0.
    destruct (Z.leb_spec 0 j); destruct (Z.ltb_spec j len); simpl; try lia; reflexivity.
Qed.

Lemma audio_callback_trylock_fail_witness :
  Radio_isActive (radio_state (example_world true)) = false /\
  mutex_held (player (example_world true)) = true /\
  (let '(w', stream') := audio_callback (fun _ => true) (fun _ x => x)
                           (example_world true) (fun _ => 7%Z) 8 in
   w' = example_world true /\
   (forall j, (0 <= j < 8)%Z -> stream' j = 0%Z) /\
   (forall j, (j < 0 \/ 8 <= j)%Z -> stream' j = 7%Z)).
Proof.
  split; [reflexivity |]. split; [reflexivity |].
  apply audio_callback_trylock_fail; reflexivity.
Defined.

(** C4: right after [Player_seek(ms)], before any decode-thread step,
    [Player_getPosition()] returns [ms] clamped to [[0, duration_ms]]. *)
Theorem Player_seek_getPosition (w : World) (ms : Z) :
  (0 <= duration_ms (player w))%Z ->
  Player_getPosition (Player_seek w ms) = Z.max 0 (Z.min ms (duration_ms (player w))).
Proof.
  intros Hd. unfold Player_getPosition, Player_seek.
  destruct (use_streaming (player w)); simpl;
    destruct (Z.ltb_spec ms 0);
    [destruct (Z.gtb_spec 0 (duration_ms (player w))) |
     destruct (Z.gtb_spec ms (duration_ms (player w))) |
     destruct (Z.gtb_spec 0 (duration_ms (player w))) |
     destruct (Z.gtb_spec ms (duration_ms (player w)))]; lia.
Qed.

Lemma Player_seek_getPosition_witness :
  (0 <= duration_ms (player (example_world false)))%Z /\
  Player_getPosition (Player_seek (example_world false) 20000) =
    Z.max 0 (Z.min 20000 (duration_ms (player (example_world false)))).
Proof.
  split; [simpl; lia |].
  apply Player_seek_getPosition. simpl. lia.
Defined.

Section DecodeThreadFacts.
Variable STREAM_BUFFER_FRAMES : nat.
Variable codec_seek_ok : StreamDecoder -> Z -> bool.
Variable codec_read : StreamDecoder -> nat -> list frame.
Variable target_sample_rate : Z.
Variable resample_out : list frame -> bool -> list frame.

Let iter := stream_iter STREAM_BUFFER_FRAMES codec_seek_ok codec_read
              target_sample_rate resample_out.
Let loop := stream_loop STREAM_BUFFER_FRAMES codec_seek_ok codec_read
              target_sample_rate resample_out.

(** The part of an iteration after the seek check emits only buffer
    writes or a sleep, and keeps [stream_seeking] and [stream_running]. *)
Lemma stream_iter_tail w :
  stream_seeking (player w) = false ->
  let '(w', ev) := iter w in
  filter is_decoder_seek ev = [] /\ filter is_buffer_clear ev = [] /\
  stream_seeking (player w') = false /\
  stream_running (player w') = stream_running (player w).
Proof.
  intros Hs. unfold iter, stream_iter. rewrite Hs.
  destruct (_ <? _)%nat.
  - destruct (stream_decoder_read _ _ _) as [d sd2].
    destruct (0 <? length d)%nat.
    + destruct (circular_buffer_write _ _ _) as [cb' x]. simpl. auto.
    + simpl. auto.
  - simpl. auto.
Qed.

Lemma stream_iter_seek w :
  stream_seeking (player w) = true ->
  let '(w', ev) := iter w in
  filter is_decoder_seek ev = [EvDecoderSeek (seek_target_frame (player w))] /\
  length (filter is_buffer_clear ev) = 1%nat /\
  stream_seeking (player w') = false /\
  stream_running (player w') = stream_running (player w).
Proof.
  intros Hs. unfold iter, stream_iter. rewrite Hs.
  destruct (_ <? _)%nat.
  - destruct (stream_decoder_read _ _ _) as [d sd2].
    destruct (0 <? length d)%nat.
    + destruct (circular_buffer_write _ _ _) as [cb' x].
      destruct (resampler_present (player w)); simpl; auto.
    + destruct (resampler_present (player w)); simpl; auto.
  - destruct (resampler_present (player w)); simpl; auto.
Qed.

Lemma stream_loop_no_seek fuel : forall w,
  stream_seeking (player w) = false ->
  let '(w', ev) := loop fuel w in
  filter is_decoder_seek ev = [] /\ filter is_buffer_clear ev = [].
Proof.
  unfold loop. induction fuel as [| fuel IH]; intros w Hs; simpl; [auto |].
  destruct (stream_running (player w)); [| auto].
  pose proof (stream_iter_tail w Hs) as Ht. unfold iter in Ht.
  destruct (stream_iter _ _ _ _ _ w) as [w1 e1].
  destruct Ht as (H1 & H2 & H3 & _).
  specialize (IH w1 H3).
  destruct (stream_loop _ _ _ _ _ fuel w1) as [w2 e2].
  destruct IH as [H4 H5].
  rewrite !filter_app, H1, H2, H4, H5. auto.
Qed.

End DecodeThreadFacts.

(** C5: two [Player_seek] calls issued before the decode thread services
    the first: over any number [n >= 1] of loop iterations, the thread
    calls [stream_decoder_seek] exactly once, with the target frame of the
    second call, and clears the circular buffer exactly once. *)
Theorem two_seeks_single_decoder_seek (STREAM_BUFFER_FRAMES : nat)
    (codec_seek_ok : StreamDecoder -> Z -> bool)
    (codec_read : StreamDecoder -> nat -> list frame)
    (target_sample_rate : Z) (resample_out : list frame -> bool -> list frame)
    (w : World) (a b : Z) (n : nat) :
  use_streaming (player w) = true -> stream_running (player w) = true ->
  (1 <= n)%nat ->
  let '(w', log) := stream_thread_func STREAM_BUFFER_FRAMES codec_seek_ok codec_read
                      target_sample_rate resample_out true n
                      (Player_seek (Player_seek w a) b) in
  filter is_decoder_seek log =
    [EvDecoderSeek (Z.quot (Z.min (Z.max b 0) (duration_ms (player w))
                            * source_sample_rate (stream_decoder (player w))) 1000)] /\
  length (filter is_buffer_clear log) = 1%nat.
Proof.
  intros Hstr Hrun Hn. unfold stream_thread_func.
  destruct n as [| n]; [lia |].
  set (w2 := Player_seek (Player_seek w a) b). cbn [stream_loop].
  assert (Hw2 : stream_seeking (player w2) = true /\ stream_running (player w2) = true /\
                seek_target_frame (player w2) =
                Z.quot (Z.min (Z.max b 0) (duration_ms (player w))
                        * source_sample_rate (stream_decoder (player w))) 1000).
  { unfold w2, Player_seek. simpl. rewrite Hstr. simpl. rewrite Hstr. simpl.
    split; [reflexivity |]. split; [exact Hrun |]. f_equal. f_equal.
    destruct (Z.ltb_spec b 0);
      [destruct (Z.gtb_spec 0 (duration_ms (player w))) |
       destruct (Z.gtb_spec b (duration_ms (player w)))]; lia. }
  destruct Hw2 as (Hs & Hr & Ht). rewrite Hr.
  pose proof (stream_iter_seek STREAM_BUFFER_FRAMES codec_seek_ok codec_read
                target_sample_rate resample_out w2 Hs) as H1.
  destruct (stream_iter _ _ _ _ _ w2) as [w3 e1].
  destruct H1 as (H1 & H2 & H3 & _).
  pose proof (stream_loop_no_seek STREAM_BUFFER_FRAMES codec_seek_ok codec_read
                target_sample_rate resample_out n w3 H3) as H4.
  destruct (stream_loop _ _ _ _ _ n w3) as [w4 e2].
  destruct H4 as [H4 H5].
  rewrite !filter_app, H1, H4, H5, Ht, app_nil_r, app_nil_r. split; [reflexivity | exact H2].
Qed.

Lemma two_seeks_single_decoder_seek_witness :
  use_streaming (player (example_world false)) = true /\
  stream_running (player (example_world false)) = true /\ (1 <= 3)%nat /\
  (let '(w', log) := stream_thread_func 16 (fun _ _ => true) (fun _ _ => [])
                       48000 (fun fs _ => fs) true 3
                       (Player_seek (Player_seek (example_world false) 2000) 5000) in
   filter is_decoder_seek log =
     [EvDecoderSeek (Z.quot (Z.min (Z.max 5000 0) (duration_ms (player (example_world false)))
                     * source_sample_rate (stream_decoder (player (example_world false)))) 1000)] /\
   length (filter is_buffer_clear log) = 1%nat).
Proof.
  split; [reflexivity |]. split; [reflexivity |]. split; [lia |].
  apply two_seeks_single_decoder_seek; [reflexivity | reflexivity | lia].
Defined.

(** C8: at equal source and destination rates, [resample_chunk] copies
    the first [min input_frames max_output_frames] input frames into the
    output unchanged, leaves the rest of the output as it was, returns
    that count, hands back the converter state untouched, and its result
    does not depend on the float-buffer allocation or on [src_process]. *)
Theorem resample_chunk_passthrough (SRC_STATE : Type)
    (float_bufs_ok : nat -> nat -> bool)
    (src_convert : SRC_STATE -> list frame -> nat -> nat -> bool ->
                   SRC_STATE * option (list frame))
    (input : list frame) (input_frames : nat) (rate : Z)
    (output : list frame) (max_output_frames : nat)
    (src_state : SRC_STATE) (is_last : bool) :
  (input_frames <= length input)%nat ->
  (Nat.min input_frames max_output_frames <= length output)%nat ->
  let '(out', n, st') := resample_chunk SRC_STATE float_bufs_ok src_convert
                           input input_frames rate rate output max_output_frames
                           src_state is_last in
  n = Nat.min input_frames max_output_frames /\
  firstn n out' = firstn n input /\
  skipn n out' = skipn n output /\
  st' = src_state /\
  (forall float_bufs_ok' src_convert',
     resample_chunk SRC_STATE float_bufs_ok' src_convert'
       input input_frames rate rate output max_output_frames src_state is_last
     = (out', n, st')).
Proof.
  intros Hin Hout. unfold resample_chunk. rewrite Z.eqb_refl.
  assert (Hk : (if (input_frames <? max_output_frames)%nat then input_frames
                else max_output_frames) = Nat.min input_frames max_output_frames).
  { destruct (Nat.ltb_spec input_frames max_output_frames); lia. }
  rewrite Hk. set (k := Nat.min input_frames max_output_frames) in *.
  assert (Hl : length (firstn k input) = k) by (rewrite length_firstn; lia).
  unfold memcpy_at. rewrite firstn_O, app_nil_l, Nat.add_0_l, Hl.
  split; [reflexivity |]. split.
  - rewrite firstn_app, Hl, Nat.sub_diag, firstn_O, app_nil_r.
    rewrite <- Hl at 1. apply firstn_all.
  - split; [| split; [reflexivity | intros; reflexivity]].
    rewrite skipn_app, Hl, Nat.sub_diag, skipn_O.
    rewrite <- Hl at 1. rewrite skipn_all. reflexivity.
Qed.

Lemma resample_chunk_passthrough_witness :
  (2 <= length [(1,2); (3,4); (5,6)]%Z)%nat /\
  (Nat.min 2 5 <= length (List.repeat silent_frame 5))%nat /\
  (let '(out', n, st') := resample_chunk unit (fun _ _ => true) (fun s _ _ _ _ => (s, None))
                            [(1,2); (3,4); (5,6)]%Z 2 44100 44100
                            (List.repeat silent_frame 5) 5 tt false in
   n = Nat.min 2 5 /\
   firstn n out' = firstn n [(1,2); (3,4); (5,6)]%Z /\
   skipn n out' = skipn n (List.repeat silent_frame 5) /\
   st' = tt /\
   (forall float_bufs_ok' src_convert',
      resample_chunk unit float_bufs_ok' src_convert'
        [(1,2); (3,4); (5,6)]%Z 2 44100 44100 (List.repeat silent_frame 5) 5 tt false
      = (out', n, st'))).
Proof.
  split; [simpl; lia |]. split; [simpl; lia |].
  apply resample_chunk_passthrough; simpl; lia.
Defined.

(** C9: when the detected format is not one of the streamed formats
    (MP3, WAV, FLAC, OGG) -- an unknown extension, or a tracker module --
    or when the codec fails to open the file, [Player_load] returns a
    negative value and never reaches [pthread_create]. *)
Theorem Player_load_unsupported_fails
    (codec_open : AudioFormat -> string -> option StreamDecoder)
    (cb_malloc_ok src_new_ok : bool) (target_rate : Z)
    (audio_initialized : bool) (fp : string) :
  is_streamable (Player_detectFormat fp) = false \/
  codec_open (Player_detectFormat fp) fp = None ->
  let '(result, spawned) := Player_load codec_open cb_malloc_ok src_new_ok target_rate
                              audio_initialized (Some fp) in
  (result < 0)%Z /\ spawned = false.
Proof.
  intros H. unfold Player_load.
  destruct audio_initialized; simpl; [| split; [lia | reflexivity]].
  destruct (is_streamable (Player_detectFormat fp)) eqn:Hs;
    [| split; [lia | reflexivity]].
  destruct H as [H | H]; [discriminate |].
  unfold load_streaming, stream_decoder_open.
  destruct (Player_detectFormat fp) eqn:Hf; try discriminate;
    rewrite H; split; [lia | reflexivity | lia | reflexivity | lia | reflexivity
                       | lia | reflexivity].
Qed.

Lemma Player_load_unsupported_fails_witness :
  (is_streamable (Player_detectFormat "notes.txt"%string) = false \/
   (fun (_ : AudioFormat) (_ : string) => @None StreamDecoder)
     (Player_detectFormat "notes.txt"%string) "notes.txt"%string = None) /\
  (let '(result, spawned) := Player_load (fun _ _ => None) true true 48000%Z true
                               (Some "notes.txt"%string) in
   (result < 0)%Z /\ spawned = false).
Proof.
  split; [left; reflexivity |].
  apply (Player_load_unsupported_fails (fun _ _ => None) true true 48000%Z true "notes.txt"%string).
  left; reflexivity.
Defined.

(* ------------------------------------------------------------------ *)
(** ** Redirects *)

Module RadioNetFacts.
Import CStr Radio RadioNet.

Lemma substring_0_all (s : string) (n : nat) :
  (String.length s <= n)%nat -> substring 0 n s = s.
Proof.
  revert n. induction s as [| c s IH]; intros [| n] H; simpl in *; try reflexivity.
  - lia.
  - rewrite IH by lia. reflexivity.
Qed.

Lemma fetch_redirect fuel bs srv url loc :
  serve srv url = Redirected loc ->
  fetch_url_content (S fuel) bs srv url = fetch_url_content fuel bs srv (substring 0 1023 loc).
Proof. intros H. simpl. rewrite H. reflexivity. Qed.

Lemma redirect_loop_follow R t iters c srv url loc :
  serve srv url = Redirected loc ->
  (0 < String.length loc < R)%nat -> c <> max_redirects ->
  redirect_loop R t (S iters) c srv url = redirect_loop R t iters (S c) srv loc.
Proof.
  intros Hs Hl Hc. simpl. rewrite Hs. unfold parse_headers.
  destruct (Nat.ltb_spec 0 (String.length loc)); [| lia].
  destruct (Nat.ltb_spec (String.length loc) R); [| lia]. simpl.
  destruct (String.eqb_spec loc ""); [subst loc; simpl in Hl; lia |].
  destruct (Nat.eqb_spec c max_redirects); [contradiction |].
  rewrite substring_0_all by lia. reflexivity.
Qed.

Lemma redirect_loop_cap R t iters srv url loc :
  serve srv url = Redirected loc ->
  (0 < String.length loc < R)%nat ->
  redirect_loop R t (S iters) max_redirects srv url =
    (-1, RADIO_STATE_ERROR, "Too many redirects"%string)%Z.
Proof.
  intros Hs Hl. simpl. rewrite Hs. unfold parse_headers.
  destruct (Nat.ltb_spec 0 (String.length loc)); [| lia].
  destruct (Nat.ltb_spec (String.length loc) R); [| lia]. simpl.
  destruct (String.eqb_spec loc ""); [subst loc; simpl in Hl; lia |].
  reflexivity.
Qed.

Lemma fetch_hls_loop fuel :
  fetch_url_content fuel (64 * 1024) hls_loop_server hls_loop_url = None.
Proof.
  induction fuel as [| fuel IH]; [reflexivity |].
  rewrite (fetch_redirect _ _ _ _ hls_loop_url) by reflexivity.
  exact IH.
Qed.

End RadioNetFacts.

Import RadioNet RadioNetFacts.

(** C6: the 5-redirect cap exists only on the direct-stream path of
    [Radio_play]. A direct URL answered by a chain of 6 redirects ends in
    [RADIO_STATE_ERROR] with "Too many redirects"; [fetch_url_content],
    which fetches HLS playlists and segments, follows the same 6-redirect
    chain to its end, so [Radio_play] on an HLS URL behind that chain goes
    on to parse the playlist; and on an HLS URL that redirects to itself
    [fetch_url_content] keeps calling itself, so [Radio_play] does not
    return at all (for any bound on the number of calls). *)
Theorem redirect_cap_direct_only (RADIO_MAX_URL : nat)
    (parse_m3u8_playlist : list ascii -> string -> Z) (thread_ok : bool) :
  (32 <= RADIO_MAX_URL)%nat ->
  Radio_play RADIO_MAX_URL parse_m3u8_playlist thread_ok 1
    (chain_server direct_chain []) "http://r.example/0"%string
    = Some (-1, RADIO_STATE_ERROR, "Too many redirects"%string)%Z /\
  (forall fuel, (7 <= fuel)%nat ->
     fetch_url_content fuel (64 * 1024) (chain_server hls_chain playlist_body)
       "http://h.example/0.m3u8"%string = Some (Z.of_nat (length playlist_body), playlist_body) /\
     Radio_play RADIO_MAX_URL parse_m3u8_playlist thread_ok fuel
       (chain_server hls_chain playlist_body) "http://h.example/0.m3u8"%string
     = Some (if (parse_m3u8_playlist playlist_body "http://h.example/0.m3u8"%string <=? 0)%Z
             then (-1, RADIO_STATE_ERROR, "No segments in playlist"%string)%Z
             else start_thread thread_ok)) /\
  (forall fuel,
     Radio_play RADIO_MAX_URL parse_m3u8_playlist thread_ok fuel
       hls_loop_server hls_loop_url = None).
Proof.
  intros HR. split; [| split].
  - unfold Radio_play.
    replace (is_hls_url "http://r.example/0"%string) with false by reflexivity.
    rewrite substring_0_all by (simpl; lia).
    unfold max_redirects.
    rewrite (redirect_loop_follow _ _ _ _ _ _ "http://r.example/1"%string) by
      (reflexivity || (simpl; lia) || discriminate).
    rewrite (redirect_loop_follow _ _ _ _ _ _ "http://r.example/2"%string) by
      (reflexivity || (simpl; lia) || discriminate).
    rewrite (redirect_loop_follow _ _ _ _ _ _ "http://r.example/3"%string) by
      (reflexivity || (simpl; lia) || discriminate).
    rewrite (redirect_loop_follow _ _ _ _ _ _ "http://r.example/4"%string) by
      (reflexivity || (simpl; lia) || discriminate).
    rewrite (redirect_loop_follow _ _ _ _ _ _ "http://r.example/5"%string) by
      (reflexivity || (simpl; lia) || discriminate).
    f_equal. apply (redirect_loop_cap _ _ _ _ _ "http://r.example/6"%string);
      [reflexivity | simpl; lia].
  - intros fuel Hf.
    replace fuel with (S (S (S (S (S (S (S (fuel - 7)))))))) by lia.
    match goal with |- ?F = ?V /\ _ => assert (Hf7 : F = V) by reflexivity end.
    split; [exact Hf7 |].
    unfold Radio_play.
    replace (is_hls_url "http://h.example/0.m3u8"%string) with true by reflexivity.
    rewrite Hf7.
    replace (Z.of_nat (length playlist_body) <=? 0)%Z with false by reflexivity.
    destruct (_ <=? 0)%Z; reflexivity.
  - intros fuel. unfold Radio_play.
    replace (is_hls_url hls_loop_url) with true by reflexivity.
    rewrite fetch_hls_loop. reflexivity.
Qed.

Lemma redirect_cap_direct_only_witness :
  (32 <= 1024)%nat /\
  Radio_play 1024 (fun _ _ => 3%Z) true 1
    (chain_server direct_chain []) "http://r.example/0"%string
    = Some (-1, RADIO_STATE_ERROR, "Too many redirects"%string)%Z /\
  (forall fuel, (7 <= fuel)%nat ->
     fetch_url_content fuel (64 * 1024) (chain_server hls_chain playlist_body)
       "http://h.example/0.m3u8"%string = Some (Z.of_nat (length playlist_body), playlist_body) /\
     Radio_play 1024 (fun _ _ => 3%Z) true fuel
       (chain_server hls_chain playlist_body) "http://h.example/0.m3u8"%string
     = Some (if ((fun _ _ => 3%Z) playlist_body "http://h.example/0.m3u8"%string <=? 0)%Z
             then (-1, RADIO_STATE_ERROR, "No segments in playlist"%string)%Z
             else start_thread true)) /\
  (forall fuel,
     Radio_play 1024 (fun _ _ => 3%Z) true fuel hls_loop_server hls_loop_url = None).
Proof.
  split; [lia |]. apply (redirect_cap_direct_only 1024 (fun _ _ => 3%Z) true). lia.
Defined.

(* ------------------------------------------------------------------ *)
(** ** ICY metadata *)

Module IcyFacts.
Import CStr Icy.

Lemma cstring_no_nul (l : list ascii) :
  existsb (Ascii.eqb NUL) l = false -> cstring l = l.
Proof.
  induction l as [| c l IH]; cbn [cstring existsb]; [reflexivity |].
  intros H. apply orb_false_iff in H as [H1 H2].
  rewrite Ascii.eqb_sym, H1, IH by exact H2. reflexivity.
Qed.

Lemma strchr_app (v post : list ascii) (c : ascii) :
  existsb (Ascii.eqb c) v = false -> strchr (v ++ c :: post) c = Some (length v).
Proof.
  induction v as [| x v IH]; cbn [strchr existsb app length]; intros H.
  - rewrite Ascii.eqb_refl. reflexivity.
  - apply orb_false_iff in H as [H1 H2].
    rewrite Ascii.eqb_sym, H1, IH by exact H2. reflexivity.
Qed.

Lemma skipn_length_app {A} (a c : list A) : skipn (length a) (a ++ c) = c.
Proof. induction a as [| x a IH]; simpl; auto. Qed.

Lemma firstn_length_app {A} (a c : list A) : firstn (length a) (a ++ c) = a.
Proof. induction a as [| x a IH]; simpl; [reflexivity | rewrite IH; reflexivity]. Qed.

Lemma length_StreamTitle_pat : length StreamTitle_pat = 13.
Proof. reflexivity. Qed.

End IcyFacts.

Import IcyFacts.

(** A single quote inside the value ends it, whatever the field sizes
    (as long as the title field holds "Guns N"). *)
Lemma icy_apostrophe_cut :
  forall title_size artist_size md,
  (7 <= title_size)%nat ->
  let block := list_ascii_of_string "StreamTitle='Guns N' Roses - Paradise City';" in
  let md' := Icy.parse_icy_metadata title_size artist_size md block (length block) in
  Icy.title md' = list_ascii_of_string "Guns N" /\ Icy.artist md' = [].
Proof.
  intros ts as_ md H.
  destruct (Nat.le_exists_sub 7 ts H) as [k [Hk _]]. subst ts.
  rewrite Nat.add_comm. unfold Icy.parse_icy_metadata. simpl. rewrite !firstn_nil.
  split; reflexivity.
Qed.

(** C7 (counterexample): the value of [StreamTitle='...'] ends at the
    first single quote, not at the closing [';]. For the block
    [StreamTitle='Guns N' Roses - Paradise City';] and 256-byte title and
    artist fields, the title becomes "Guns N" and the artist the empty
    string: the value is not split into "Guns N' Roses" and
    "Paradise City". *)
Lemma icy_title_split_cex :
  let block := list_ascii_of_string "StreamTitle='Guns N' Roses - Paradise City';" in
  let md' := Icy.parse_icy_metadata 256 256 (Icy.mkMeta [] []) block (length block) in
  Icy.title md' = list_ascii_of_string "Guns N" /\ Icy.artist md' = [] /\
  Icy.title md' <> list_ascii_of_string "Paradise City" /\
  Icy.artist md' <> list_ascii_of_string "Guns N' Roses".
Proof.
  vm_compute. repeat split; discriminate.
Qed.

(** C7 (amended): for any data block and length [len] (the ICY block
    [meta_len = byte * 16] long, usually padded with NULs), let [meta] be
    its first [min len 4095] bytes up to the first NUL. If [meta] is
    [pre StreamTitle='v' post], its first [StreamTitle='] is the one
    after [pre], and [v] holds no single quote, then the stored value is
    [v] cut to the title field ([title_size - 1] bytes); if it contains
    [" - "], the artist becomes the part before the first [" - "] (cut to
    [artist_size - 1] bytes) and the title the part after it; otherwise
    the title is the whole value and the artist the empty string. *)
Theorem icy_title_split (title_size artist_size : nat) (md : Icy.RadioMetadata)
    (data : list ascii) (len : nat) (pre v post : list ascii) :
  CStr.cstring (firstn (Nat.min len 4095) data) = Icy.icy_block pre v post ->
  CStr.strstr (Icy.icy_block pre v post) Icy.StreamTitle_pat = Some (length pre) ->
  existsb (Ascii.eqb Icy.quote) v = false ->
  let t := firstn (title_size - 1) v in
  let md' := Icy.parse_icy_metadata title_size artist_size md data len in
  match CStr.strstr t Icy.separator_pat with
  | Some k => Icy.artist md' = firstn (artist_size - 1) (firstn k t) /\
              Icy.title md' = skipn (k + 3) t
  | None => Icy.artist md' = [] /\ Icy.title md' = t
  end.
Proof.
  intros Hmeta Hfind Hq t md'. subst md'.
  unfold Icy.parse_icy_metadata.
  replace (if 4096 <=? len then 4095 else len) with (Nat.min len 4095)
    by (destruct (Nat.leb_spec 4096 len); lia).
  rewrite Hmeta, Hfind.
  assert (Hrest : skipn (length pre + 13) (Icy.icy_block pre v post) = v ++ Icy.quote :: post).
  { unfold Icy.icy_block. rewrite <- length_StreamTitle_pat, <- length_app, app_assoc.
    apply skipn_length_app. }
  rewrite Hrest, strchr_app by exact Hq.
  rewrite firstn_length_app.
  fold t. destruct (CStr.strstr t Icy.separator_pat); split; reflexivity.
Qed.

(** A 48-byte block (length byte 3) holding
    [StreamTitle='Artist Name - Song Title';] padded with NULs. *)
Lemma icy_title_split_witness :
  let pre := [] in
  let v := list_ascii_of_string "Artist Name - Song Title" in
  let post := list_ascii_of_string ";" in
  let data := Icy.icy_block pre v post ++ List.repeat CStr.NUL 9 in
  length data = 48%nat /\
  CStr.cstring (firstn (Nat.min 48 4095) data) = Icy.icy_block pre v post /\
  CStr.strstr (Icy.icy_block pre v post) Icy.StreamTitle_pat = Some (length pre) /\
  existsb (Ascii.eqb Icy.quote) v = false /\
  (let t := firstn (256 - 1) v in
   let md' := Icy.parse_icy_metadata 256 256 (Icy.mkMeta [] []) data 48 in
   match CStr.strstr t Icy.separator_pat with
   | Some k => Icy.artist md' = firstn (256 - 1) (firstn k t) /\
               Icy.title md' = skipn (k + 3) t
   | None => Icy.artist md' = [] /\ Icy.title md' = t
   end).
Proof.
  intros pre v post data.
  split; [vm_compute; reflexivity |].
  split; [vm_compute; reflexivity |].
  split; [vm_compute; reflexivity |].
  split; [vm_compute; reflexivity |].
  exact (icy_title_split 256 256 (Icy.mkMeta [] []) data 48 pre v post
           ltac:(vm_compute; reflexivity) ltac:(vm_compute; reflexivity)
           ltac:(vm_compute; reflexivity)).
Defined.

Import TagText.

Module TagTextFacts.
Local Open Scope Z_scope.

Lemma lor_mul_pow2 a b k :
  0 <= k -> 0 <= b < 2 ^ k -> Z.lor (a * 2 ^ k) b = a * 2 ^ k + b.
Proof.
  intros Hk Hb.
  assert (Hl : Z.land (a * 2 ^ k) b = 0).
  { rewrite <- Z.shiftl_mul_pow2 by exact Hk.
    apply Z.bits_inj'. intros i Hi.
    rewrite Z.land_spec, Z.bits_0, Z.shiftl_spec by exact Hi.
    destruct (Z.ltb_spec i k).
    - rewrite (Z.testbit_neg_r a (i - k)) by lia. reflexivity.
    - destruct (Z.eq_dec b 0) as [-> | Hb0]; [rewrite Z.bits_0; apply andb_false_r |].
      rewrite (Z.bits_above_log2 b i); [apply andb_false_r | lia |].
      apply Z.lt_le_trans with k; [apply Z.log2_lt_pow2; lia | lia]. }
  rewrite <- Z.lxor_lor by exact Hl. rewrite <- Z.add_nocarry_lxor by exact Hl.
  reflexivity.
Qed.

Lemma land_127 x : Z.land x 127 = x mod 128.
Proof. change 127 with (Z.ones 7). rewrite Z.land_ones by lia. reflexivity. Qed.

Lemma read_syncsafe_int_value (d : list Z) :
  read_syncsafe_int d =
    (byte_at d 0 mod 128) * 2 ^ 21 + (byte_at d 1 mod 128) * 2 ^ 14
    + (byte_at d 2 mod 128) * 2 ^ 7 + byte_at d 3 mod 128 /\
  0 <= read_syncsafe_int d < 2 ^ 28.
Proof.
  unfold read_syncsafe_int. rewrite !land_127, !Z.shiftl_mul_pow2 by lia.
  set (x0 := byte_at d 0 mod 128). set (x1 := byte_at d 1 mod 128).
  set (x2 := byte_at d 2 mod 128). set (x3 := byte_at d 3 mod 128).
  assert (H0 : 0 <= x0 < 128) by (apply Z.mod_pos_bound; lia).
  assert (H1 : 0 <= x1 < 128) by (apply Z.mod_pos_bound; lia).
  assert (H2 : 0 <= x2 < 128) by (apply Z.mod_pos_bound; lia).
  assert (H3 : 0 <= x3 < 128) by (apply Z.mod_pos_bound; lia).
  rewrite lor_mul_pow2 by (change (2^21) with 2097152; change (2^14) with 16384; nia).
  replace (x0 * 2 ^ 21 + x1 * 2 ^ 14) with ((x0 * 2 ^ 7 + x1) * 2 ^ 14) by ring.
  rewrite lor_mul_pow2 by (change (2^14) with 16384; change (2^7) with 128; nia).
  replace ((x0 * 2 ^ 7 + x1) * 2 ^ 14 + x2 * 2 ^ 7)
    with ((x0 * 2 ^ 14 + x1 * 2 ^ 7 + x2) * 2 ^ 7) by ring.
  rewrite lor_mul_pow2 by (change (2^7) with 128; lia).
  change (2^7) with 128. change (2^14) with 16384. change (2^21) with 2097152.
  change (2^28) with 268435456. split; [ring | nia].
Qed.

Lemma read_be32_value (d : list Z) :
  (forall i, (1 <= i < 4)%nat -> 0 <= byte_at d i < 256) ->
  read_be32 d = byte_at d 0 * 2 ^ 24 + byte_at d 1 * 2 ^ 16 + byte_at d 2 * 2 ^ 8 + byte_at d 3.
Proof.
  intros H. unfold read_be32. rewrite !Z.shiftl_mul_pow2 by lia.
  pose proof (H 1%nat ltac:(lia)). pose proof (H 2%nat ltac:(lia)).
  pose proof (H 3%nat ltac:(lia)).
  set (x0 := byte_at d 0) in *. set (x1 := byte_at d 1) in *.
  set (x2 := byte_at d 2) in *. set (x3 := byte_at d 3) in *.
  rewrite lor_mul_pow2 by (change (2^24) with 16777216; change (2^16) with 65536; nia).
  replace (x0 * 2 ^ 24 + x1 * 2 ^ 16) with ((x0 * 2 ^ 8 + x1) * 2 ^ 16) by ring.
  rewrite lor_mul_pow2 by (change (2^16) with 65536; change (2^8) with 256; nia).
  replace ((x0 * 2 ^ 8 + x1) * 2 ^ 16 + x2 * 2 ^ 8)
    with ((x0 * 2 ^ 16 + x1 * 2 ^ 8 + x2) * 2 ^ 8) by ring.
  rewrite lor_mul_pow2 by (change (2^8) with 256; lia).
  ring.
Qed.

Lemma land_255 x : Z.land x 255 = x mod 256.
Proof. change 255 with (Z.ones 8). rewrite Z.land_ones by lia. reflexivity. Qed.

Theorem read_be32_roundtrip (n : Z) :
  0 <= n < 2 ^ 32 ->
  read_be32 [Z.shiftr n 24; Z.land (Z.shiftr n 16) 255;
             Z.land (Z.shiftr n 8) 255; Z.land n 255] = n.
Proof.
  intros Hn. rewrite read_be32_value.
  - unfold byte_at; simpl nth. rewrite !land_255, !Z.shiftr_div_pow2 by lia.
    change (2 ^ 24) with 16777216. change (2 ^ 16) with 65536. change (2 ^ 8) with 256.
    pose proof (Z.div_mod n 256 ltac:(lia)).
    pose proof (Z.div_mod (n / 256) 256 ltac:(lia)).
    pose proof (Z.div_mod (n / 65536) 256 ltac:(lia)).
    rewrite Z.div_div in H0 by lia. rewrite Z.div_div in H1 by lia.
    change (256 * 256) with 65536 in H0. change (65536 * 256) with 16777216 in H1.
    lia.
  - intros i Hi. unfold byte_at.
    destruct i as [| [| [| [| i]]]]; simpl nth; try lia;
      rewrite ?land_255; apply Z.mod_pos_bound; lia.
Qed.

Lemma read_be32_roundtrip_witness :
  (0 <= 3735928559 < 2 ^ 32) /\
  read_be32 [Z.shiftr 3735928559 24; Z.land (Z.shiftr 3735928559 16) 255;
             Z.land (Z.shiftr 3735928559 8) 255; Z.land 3735928559 255] = 3735928559.
Proof. split; [lia | apply read_be32_roundtrip; lia]. Defined.

Lemma trim_loop_spec (len : nat) (d : list ascii) :
  (trim_loop len d <= len)%nat /\
  (forall i, (trim_loop len d <= i < len)%nat -> is_trim_char (nth i d NUL) = true) /\
  (trim_loop len d = 0%nat \/ is_trim_char (nth (trim_loop len d - 1) d NUL) = false).
Proof.
  induction len as [| len IH]; cbn [trim_loop].
  - split; [lia | split; [intros; lia | left; reflexivity]].
  - destruct (is_trim_char (nth len d NUL)) eqn:E.
    + destruct IH as (H1 & H2 & H3). split; [lia | split; [| exact H3]].
      intros i Hi. destruct (Nat.eq_dec i len) as [-> | Hne]; [exact E |].
      apply H2. lia.
    + split; [lia | split; [intros; lia |]]. right.
      replace (S len - 1)%nat with len by lia. exact E.
Qed.

Lemma last_firstn_nth (d : list ascii) (m : nat) (c : ascii) :
  (0 < m <= length d)%nat -> last (firstn m d) c = nth (m - 1) d c.
Proof.
  revert m. induction d as [| x d IH]; intros m Hm; [simpl in Hm; lia |].
  destruct m as [| [| m]]; [lia | reflexivity |].
  destruct d as [| y d']; [simpl in Hm; lia |].
  transitivity (last (firstn (S m) (y :: d')) c); [reflexivity |].
  rewrite IH by (simpl in *; lia). simpl. replace (m - 0)%nat with m by lia.
  reflexivity.
Qed.

(** [copy_metadata_string] keeps the first [max_len - 1] characters of
    [src] and drops exactly the spaces (and NULs) at their end. *)
Theorem copy_metadata_string_trim (dest src : list ascii) (max_len : nat) :
  (0 < max_len)%nat ->
  let r := copy_metadata_string dest src max_len in
  (exists t, firstn (max_len - 1) src = r ++ t /\ forallb is_trim_char t = true) /\
  (r = [] \/ is_trim_char (last r NUL) = false) /\
  (length r < max_len)%nat.
Proof.
  intros Hm r. subst r. unfold copy_metadata_string.
  destruct (Nat.eqb_spec max_len 0) as [| _]; [lia |].
  set (len := if (max_len <=? length src)%nat then (max_len - 1)%nat else length src).
  assert (Hd : firstn len src = firstn (max_len - 1) src).
  { unfold len. destruct (Nat.leb_spec max_len (length src)); [reflexivity |].
    rewrite firstn_all, firstn_all2 by lia. reflexivity. }
  assert (Hl : length (firstn len src) = len).
  { rewrite length_firstn. unfold len. destruct (Nat.leb_spec max_len (length src)); lia. }
  set (d := firstn len src) in *.
  destruct (trim_loop_spec len d) as (H1 & H2 & H3).
  set (m := trim_loop len d) in *.
  split; [| split].
  - exists (skipn m d). rewrite <- Hd, firstn_skipn. split; [reflexivity |].
    apply forallb_forall. intros c Hin.
    apply (In_nth _ _ NUL) in Hin as [k [Hk Hc]].
    rewrite length_skipn in Hk. rewrite nth_skipn in Hc. subst c. apply H2. lia.
  - destruct (Nat.eq_dec m 0) as [E | E]; [left; rewrite E; reflexivity |].
    destruct H3 as [H3 | H3]; [contradiction |].
    right. rewrite last_firstn_nth by lia. exact H3.
  - rewrite length_firstn. unfold len in *.
    destruct (Nat.leb_spec max_len (length src)); lia.
Qed.

Lemma copy_metadata_string_trim_witness :
  (0 < 8)%nat /\
  (let r := copy_metadata_string [] (list_ascii_of_string "Album  ") 8 in
   (exists t, firstn (8 - 1) (list_ascii_of_string "Album  ") = r ++ t /\
              forallb is_trim_char t = true) /\
   (r = [] \/ is_trim_char (last r NUL) = false) /\
   (length r < 8)%nat).
Proof. split; [lia | exact (copy_metadata_string_trim [] (list_ascii_of_string "Album  ") 8 ltac:(lia))]. Defined.

Lemma utf16_loop_swap (ps : list (Z * Z)) (n room : nat) :
  utf16_loop false (flat_map (fun p => [snd p; fst p]) ps) n room =
  utf16_loop true (flat_map (fun p => [fst p; snd p]) ps) n room.
Proof.
  revert n room. induction ps as [| [a b] ps IH]; intros n room; [reflexivity |].
  cbn [flat_map fst snd app utf16_loop]. rewrite (Z.lor_comm (Z.shiftl b 8) a).
  destruct ((2 <=? n)%nat && (0 <? room)%nat); [| reflexivity].
  destruct (keep_unit (Z.lor a (Z.shiftl b 8))); rewrite IH; reflexivity.
Qed.

(** Reading the same code units in the other byte order gives the same
    text: [utf16be_to_ascii] on byte-swapped input equals
    [utf16le_to_ascii]. *)
Theorem utf16be_le_swap (ps : list (Z * Z)) (src_len max_len : nat) :
  utf16be_to_ascii (flat_map (fun p => [snd p; fst p]) ps) src_len max_len =
  utf16le_to_ascii (flat_map (fun p => [fst p; snd p]) ps) src_len max_len.
Proof.
  unfold utf16be_to_ascii, utf16le_to_ascii.
  destruct (max_len =? 0)%nat; [reflexivity |]. rewrite utf16_loop_swap. reflexivity.
Qed.

Lemma keep_unit_range (ch : Z) : keep_unit ch = true <-> 0 < ch < 256.
Proof.
  unfold keep_unit.
  destruct (Z.ltb_spec 0 ch), (Z.ltb_spec ch 128), (Z.leb_spec 128 ch), (Z.ltb_spec ch 256);
    simpl; split; intros; try lia; try reflexivity; try discriminate.
Qed.

Lemma utf16_loop_bounds (le : bool) (k : nat) :
  forall src n room, (length src <= k)%nat ->
  let r := utf16_loop le src n room in
  (length r <= room)%nat /\ (2 * length r <= n)%nat /\ Forall (fun c => 0 < c < 256) r.
Proof.
  induction k as [| k IH]; intros src n room Hk r; subst r.
  - destruct src; [| simpl in Hk; lia]. simpl. split; [lia | split; [lia | constructor]].
  - destruct src as [| b0 [| b1 rest]];
      [simpl; split; [lia | split; [lia | constructor]] |
       simpl; split; [lia | split; [lia | constructor]] |].
    cbn [utf16_loop].
    destruct (Nat.leb_spec 2 n); simpl andb;
      [| split; [simpl; lia | split; [simpl; lia | constructor]]].
    destruct (Nat.ltb_spec 0 room); simpl andb;
      [| split; [simpl; lia | split; [simpl; lia | constructor]]].
    set (ch := if le then _ else _).
    destruct (keep_unit ch) eqn:E.
    + destruct (IH rest (n - 2)%nat (room - 1)%nat) as (H1 & H2 & H3); [simpl in Hk; lia |].
      cbn [length]. split; [lia | split; [lia |]].
      constructor; [apply keep_unit_range; exact E | exact H3].
    + destruct (IH rest (n - 2)%nat room) as (H1 & H2 & H3); [simpl in Hk; lia |].
      split; [lia | split; [lia | exact H3]].
Qed.

(** [utf16le_to_ascii] writes nothing when [max_len] is 0; otherwise it
    writes at most [max_len - 1] characters, at most one per two source
    bytes, and never a NUL or a value above 255, so the C string it leaves
    has exactly that length and fits in [dest]. *)
Theorem utf16le_to_ascii_bounds (src : list Z) (src_len max_len : nat) :
  match utf16le_to_ascii src src_len max_len with
  | None => max_len = 0%nat
  | Some r => (length r <= max_len - 1)%nat /\ (2 * length r <= src_len)%nat /\
              Forall (fun c => 0 < c < 256) r
  end.
Proof.
  unfold utf16le_to_ascii. destruct (Nat.eqb_spec max_len 0); [assumption |].
  exact (utf16_loop_bounds true (length src) src src_len (max_len - 1) (le_n _)).
Qed.

Lemma utf16_loop_latin1 (s : list Z) (room : nat) :
  Forall (fun c => 0 < c < 256) s ->
  utf16_loop true (flat_map (fun c => [c; 0]) s) (2 * length s) room = firstn room s.
Proof.
  intros Hs. revert room. induction Hs as [| c s Hc Hs IH]; intros room.
  - destruct room; reflexivity.
  - cbn [flat_map app utf16_loop length].
    replace (Z.lor c (Z.shiftl 0 8)) with c by (rewrite Z.shiftl_0_l, Z.lor_0_r; reflexivity).
    destruct (Nat.leb_spec 2 (2 * S (length s))); [| lia].
    destruct room as [| room]; [reflexivity |].
    simpl andb. replace (keep_unit c) with true by (symmetry; apply keep_unit_range; exact Hc).
    replace (2 * S (length s) - 2)%nat with (2 * length s)%nat by lia.
    replace (S room - 1)%nat with room by lia. rewrite IH. reflexivity.
Qed.

(** Latin-1 text stored as UTF-16LE (each character followed by a zero
    byte) is read back unchanged, cut to [max_len - 1] characters. *)
Theorem utf16le_to_ascii_latin1 (s : list Z) (max_len : nat) :
  Forall (fun c => 0 < c < 256) s -> (0 < max_len)%nat ->
  utf16le_to_ascii (flat_map (fun c => [c; 0]) s) (2 * length s) max_len =
    Some (firstn (max_len - 1) s).
Proof.
  intros Hs Hm. unfold utf16le_to_ascii.
  destruct (Nat.eqb_spec max_len 0); [lia |]. rewrite utf16_loop_latin1 by exact Hs.
  reflexivity.
Qed.

Lemma utf16le_to_ascii_latin1_witness :
  Forall (fun c => 0 < c < 256) [72; 233; 121] /\ (0 < 3)%nat /\
  utf16le_to_ascii (flat_map (fun c => [c; 0]) [72; 233; 121]) (2 * length [72; 233; 121]) 3 =
    Some (firstn (3 - 1) [72; 233; 121]).
Proof.
  assert (H : Forall (fun c => 0 < c < 256) [72; 233; 121]) by (repeat constructor; lia).
  split; [exact H | split; [lia |]]. apply utf16le_to_ascii_latin1; [exact H | lia].
Defined.

Lemma strncaseeq_key (k rest lit : list ascii) :
  strncaseeq (k ++ rest) lit (length k) && (length k =? length lit)%nat =
  Player.strcaseeq k lit.
Proof.
  unfold Player.strcaseeq. revert lit.
  induction k as [| x k IH]; intros lit.
  - destruct lit, rest; reflexivity.
  - destruct lit as [| y lit]; [reflexivity |].
    cbn [app length strncaseeq map Player.chars_eqb].
    rewrite <- IH. simpl Nat.eqb. rewrite andb_assoc. reflexivity.
Qed.

Lemma skipn_key (k v : list ascii) (c : ascii) : skipn (S (length k)) (k ++ c :: v) = v.
Proof. induction k as [| x k IH]; [reflexivity | exact IH]. Qed.

(** A Vorbis comment [KEY=VALUE] sets the title, artist or album when
    [KEY] is TITLE, ARTIST or ALBUM in any letter case (the key is
    everything before the first [=], the value everything after it, run
    through [copy_metadata_string]); any other key changes nothing. *)
Theorem parse_vorbis_comment_key (title_size artist_size album_size : nat)
    (ti : TrackText) (k v : list ascii) :
  existsb (Ascii.eqb "="%char) k = false ->
  parse_vorbis_comment title_size artist_size album_size ti (k ++ "="%char :: v) =
    if Player.strcaseeq k (list_ascii_of_string "TITLE") then
      mkTrackText (copy_metadata_string (ti_title ti) v title_size) (ti_artist ti) (ti_album ti)
    else if Player.strcaseeq k (list_ascii_of_string "ARTIST") then
      mkTrackText (ti_title ti) (copy_metadata_string (ti_artist ti) v artist_size) (ti_album ti)
    else if Player.strcaseeq k (list_ascii_of_string "ALBUM") then
      mkTrackText (ti_title ti) (ti_artist ti) (copy_metadata_string (ti_album ti) v album_size)
    else ti.
Proof.
  intros Hk. unfold parse_vorbis_comment.
  rewrite IcyFacts.strchr_app by exact Hk. rewrite skipn_key.
  rewrite <- (strncaseeq_key k ("="%char :: v) (list_ascii_of_string "TITLE")).
  rewrite <- (strncaseeq_key k ("="%char :: v) (list_ascii_of_string "ARTIST")).
  rewrite <- (strncaseeq_key k ("="%char :: v) (list_ascii_of_string "ALBUM")).
  reflexivity.
Qed.

Lemma parse_vorbis_comment_key_witness :
  existsb (Ascii.eqb "="%char) (list_ascii_of_string "Artist") = false /\
  parse_vorbis_comment 256 256 256 (mkTrackText [] [] [])
    (list_ascii_of_string "Artist" ++ "="%char :: list_ascii_of_string "Nina Simone") =
    (if Player.strcaseeq (list_ascii_of_string "Artist") (list_ascii_of_string "TITLE") then
      mkTrackText (copy_metadata_string [] (list_ascii_of_string "Nina Simone") 256) [] []
    else if Player.strcaseeq (list_ascii_of_string "Artist") (list_ascii_of_string "ARTIST") then
      mkTrackText [] (copy_metadata_string [] (list_ascii_of_string "Nina Simone") 256) []
    else if Player.strcaseeq (list_ascii_of_string "Artist") (list_ascii_of_string "ALBUM") then
      mkTrackText [] [] (copy_metadata_string [] (list_ascii_of_string "Nina Simone") 256)
    else mkTrackText [] [] []).
Proof.
  split; [reflexivity |].
  exact (parse_vorbis_comment_key 256 256 256 (mkTrackText [] [] [])
           (list_ascii_of_string "Artist") (list_ascii_of_string "Nina Simone") eq_refl).
Defined.
End TagTextFacts.

Import PlayerControl.

Module PlayerControlFacts.
Local Open Scope Z_scope.

(** Toggling pause twice gives back the player's world unchanged: a
    playing track pauses and resumes, a paused one resumes and pauses, a
    stopped player is left alone both times. *)
Theorem Player_togglePause_twice (s : Sys) :
  fst (Player_togglePause (Player_togglePause s)) = fst s.
Proof.
  destruct s as [[p aps rate rs ring] paused].
  unfold Player_togglePause; cbn [fst snd player set_player].
  destruct p as [st]; destruct st; reflexivity.
Qed.

(** [Player_pause] never leaves the player playing, pauses the audio
    device when it was playing, and a second call changes nothing. *)
Theorem Player_pause_spec (s : Sys) :
  is_playing (state (player (fst (Player_pause s)))) = false /\
  (is_playing (state (player (fst s))) = true -> snd (Player_pause s) = true) /\
  Player_pause (Player_pause s) = Player_pause s.
Proof.
  destruct s as [[p aps rate rs ring] paused].
  unfold Player_pause; cbn [fst snd player set_player].
  destruct p as [st]; destruct st; cbn; repeat split; intros; try discriminate; reflexivity.
Qed.

(** After [Player_stop] the player is stopped at position 0 with a zero
    duration, the sample counter is 0, the device is paused and streaming
    is off; when it was streaming, the decode thread is stopped, the
    decoder closed, the frame buffer released and the resampler freed. *)
Theorem Player_stop_resets (s : Sys) :
  let s' := Player_stop s in
  let p' := player (fst s') in
  state p' = PLAYER_STATE_STOPPED /\ Player_getPosition (fst s') = 0 /\
  duration_ms p' = 0 /\ audio_position_samples (fst s') = 0 /\
  snd s' = true /\ use_streaming p' = false /\
  (use_streaming (player (fst s)) = true ->
     stream_running p' = false /\ decoder_open (stream_decoder p') = false /\
     circular_buffer_available (stream_buffer p') = 0%nat /\
     capacity (stream_buffer p') = 0%nat /\ resampler_present p' = false).
Proof.
  destruct s as [[p aps rate rs ring] paused]; cbn.
  destruct (use_streaming p); cbn;
    [| repeat split; intros; discriminate].
  unfold stream_decoder_close.
  destruct (decoder_open (stream_decoder p)) eqn:Hd, (stream_running p), (resampler_present p);
    cbn; rewrite ?Hd; repeat split; reflexivity.
Qed.

(** Once stopped, [Player_play] fails with -1 and changes nothing, pause
    and toggle-pause do nothing, and any seek lands on position 0 (the
    duration was cleared). *)
Theorem Player_stop_then_controls (s : Sys) (ms : Z) :
  Player_play (Player_stop s) = (-1, Player_stop s) /\
  Player_togglePause (Player_stop s) = Player_stop s /\
  Player_pause (Player_stop s) = Player_stop s /\
  Player_getPosition (Player_seek (fst (Player_stop s)) ms) = 0.
Proof.
  destruct s as [[p aps rate rs ring] paused].
  destruct p as [st dur pos vol rep vb vbp vmh mh us cb sd ss stf sr rp].
  assert (Hq : Player_getPosition (Player_seek (fst (Player_stop
     (mkWorld (mkPlayer st dur pos vol rep vb vbp vmh mh us cb sd ss stf sr rp)
        aps rate rs ring, paused))) ms) = 0).
  2: { destruct us; [destruct sd as [fmt dopen]; destruct dopen |];
       repeat split; solve [reflexivity | exact Hq]. }
  cbn. destruct (ms <? 0) eqn:H; cbn; [reflexivity |].
  apply Z.ltb_ge in H. destruct (ms >? 0) eqn:H2; [reflexivity |].
  rewrite Z.gtb_ltb, Z.ltb_ge in H2. lia.
Qed.

(** With the radio inactive, every audio callback after [Player_stop]
    writes silence over the whole requested length and leaves the world
    as it is. *)
Theorem Player_stop_silences (volume_is_unity : Z -> bool)
    (apply_volume : Z -> Z -> Z) (s : Sys) (stream : mem) (len : Z) :
  Radio_isActive (radio_state (fst s)) = false ->
  audio_callback volume_is_unity apply_volume (fst (Player_stop s)) stream len =
    (fst (Player_stop s), memset0 stream len).
Proof.
  destruct s as [[p aps rate rs ring] paused]. cbn [fst radio_state]. intros Hr.
  unfold audio_callback, Player_stop. cbn [radio_state player state is_playing fst].
  rewrite Hr. destruct (mutex_held p); reflexivity.
Qed.

Lemma Player_stop_silences_witness :
  Radio_isActive (radio_state (fst (example_world false, false))) = false /\
  audio_callback (fun _ => true) (fun _ x => x) (fst (Player_stop (example_world false, false)))
    (fun _ => 7) 16 =
    (fst (Player_stop (example_world false, false)), memset0 (fun _ => 7) 16).
Proof.
  split; [reflexivity |].
  exact (Player_stop_silences (fun _ => true) (fun _ x => x) (example_world false, false)
           (fun _ => 7) 16 eq_refl).
Defined.

(** [Player_play] on a loaded stream (streaming on, decoder open) with the
    radio inactive and the player mutex free returns 0, resumes the device
    and makes the next audio callback take its streaming branch; pausing
    after it makes the callback output silence. *)
Theorem Player_play_pause_callback (volume_is_unity : Z -> bool)
    (apply_volume : Z -> Z -> Z) (s : Sys) (stream : mem) (len : Z) :
  use_streaming (player (fst s)) = true ->
  decoder_open (stream_decoder (player (fst s))) = true ->
  Radio_isActive (radio_state (fst s)) = false ->
  mutex_held (player (fst s)) = false ->
  let '(r, s1) := Player_play s in
  r = 0 /\ snd s1 = false /\
  audio_callback volume_is_unity apply_volume (fst s1) stream len =
    audio_callback_streaming volume_is_unity apply_volume (fst s1) stream
      (len / (2 * AUDIO_CHANNELS)) /\
  audio_callback volume_is_unity apply_volume (fst (Player_pause s1)) stream len =
    (fst (Player_pause s1), memset0 stream len).
Proof.
  destruct s as [[p aps rate rs ring] paused]. cbn [fst player radio_state].
  intros Hu Hd Hr Hm. cbn [Player_play player]. rewrite Hu, Hd. cbn [negb orb].
  repeat split; try reflexivity; unfold audio_callback, Player_pause;
    cbn [fst snd player radio_state set_player set_state mutex_held state is_playing
         use_streaming];
    rewrite Hr, Hm, ?Hu; reflexivity.
Qed.

Lemma Player_play_pause_callback_witness :
  use_streaming (player (fst (example_world false, true))) = true /\
  decoder_open (stream_decoder (player (fst (example_world false, true)))) = true /\
  Radio_isActive (radio_state (fst (example_world false, true))) = false /\
  mutex_held (player (fst (example_world false, true))) = false /\
  (let '(r, s1) := Player_play (example_world false, true) in
   r = 0 /\ snd s1 = false /\
   audio_callback (fun _ => true) (fun _ x => x) (fst s1) (fun _ => 0) 16 =
     audio_callback_streaming (fun _ => true) (fun _ x => x) (fst s1) (fun _ => 0)
       (16 / (2 * AUDIO_CHANNELS)) /\
   audio_callback (fun _ => true) (fun _ x => x) (fst (Player_pause s1)) (fun _ => 0) 16 =
     (fst (Player_pause s1), memset0 (fun _ => 0) 16)).
Proof.
  split; [reflexivity |]. split; [reflexivity |]. split; [reflexivity |].
  split; [reflexivity |].
  exact (Player_play_pause_callback (fun _ => true) (fun _ x => x) (example_world false, true)
           (fun _ => 0) 16 eq_refl eq_refl eq_refl eq_refl).
Defined.

(** [circular_buffer_free] leaves an empty buffer of capacity 0: later
    writes and reads transfer 0 frames and change nothing, neither the
    buffer nor the caller's output array. *)
Theorem circular_buffer_free_inert (cb : CircularBuffer) (data out : list frame)
    (n m : nat) :
  circular_buffer_write (circular_buffer_free cb) data n = (circular_buffer_free cb, 0%nat) /\
  circular_buffer_read (circular_buffer_free cb) out m = (circular_buffer_free cb, out, 0%nat).
Proof.
  unfold circular_buffer_write, circular_buffer_read; cbn.
  split; reflexivity.
Qed.

(** A closed decoder delivers no frames and ignores seeks: reading
    returns nothing and leaves it unchanged, whatever the codec. *)
Theorem stream_decoder_close_inert (codec_seek_ok : StreamDecoder -> Z -> bool)
    (codec_read : StreamDecoder -> nat -> list frame) (sd : StreamDecoder) (n : nat) (f : Z) :
  decoder_open (stream_decoder_close sd) = false /\
  stream_decoder_read codec_read (stream_decoder_close sd) n = ([], stream_decoder_close sd) /\
  stream_decoder_seek codec_seek_ok (stream_decoder_close sd) f = stream_decoder_close sd.
Proof.
  unfold stream_decoder_close. destruct (decoder_open sd) eqn:H; cbn;
    unfold stream_decoder_read, stream_decoder_seek; cbn; rewrite ?H; auto.
Qed.

(** [Player_getVisBuffer] with a NULL buffer returns 0 and writes
    nothing; otherwise it returns 0 when [max_samples <= 0] and else
    [min(vis_buffer_pos, max_samples)], copies that many samples from the
    start of the visualisation buffer and leaves the rest of the caller's
    buffer untouched. *)
Theorem Player_getVisBuffer_spec (p : PlayerContext) (b : mem) (max_samples : Z) :
  Player_getVisBuffer p None max_samples = (0, None) /\
  let '(n, r) := Player_getVisBuffer p (Some b) max_samples in
  n = (if max_samples <=? 0 then 0 else Z.min (vis_buffer_pos p) max_samples) /\
  exists b', r = Some b' /\
    forall j, b' j = if (0 <=? j) && (j <? n) then vis_buffer p j else b j.
Proof.
  split; [reflexivity |]. unfold Player_getVisBuffer.
  destruct (max_samples <=? 0) eqn:Hm.
  - split; [reflexivity |]. exists b. split; [reflexivity |].
    intros j. destruct (0 <=? j) eqn:H0, (j <? 0) eqn:Hj; cbn; try reflexivity.
    apply Z.leb_le in H0. apply Z.ltb_lt in Hj. lia.
  - apply Z.leb_gt in Hm.
    assert (Hn : (if vis_buffer_pos p >? max_samples then max_samples else vis_buffer_pos p)
                 = Z.min (vis_buffer_pos p) max_samples).
    { destruct (vis_buffer_pos p >? max_samples) eqn:H;
        [apply Z.gtb_lt in H | rewrite Z.gtb_ltb, Z.ltb_ge in H]; lia. }
    rewrite Hn. destruct (Z.min (vis_buffer_pos p) max_samples >? 0) eqn:Hp.
    + split; [reflexivity |]. eexists; split; [reflexivity |]. reflexivity.
    + rewrite Z.gtb_ltb, Z.ltb_ge in Hp. split; [reflexivity |].
      exists b. split; [reflexivity |]. intros j.
      destruct (0 <=? j) eqn:H0, (j <? Z.min (vis_buffer_pos p) max_samples) eqn:H1; cbn; auto.
      apply Z.leb_le in H0. apply Z.ltb_lt in H1. lia.
Qed.
End PlayerControlFacts.

Import RadioUrl.

Module StationFacts.
Import CStr.

Lemma chars_eqb_true (a b : list ascii) : Player.chars_eqb a b = true <-> a = b.
Proof.
  revert b; induction a as [| x a IH]; intros [| y b]; cbn; split; intros H;
    try discriminate; try reflexivity.
  - apply andb_prop in H as [H1 H2]. apply Ascii.eqb_eq in H1. apply IH in H2. congruence.
  - injection H as -> ->. rewrite Ascii.eqb_refl. apply IH. reflexivity.
Qed.

Lemma exists_app (l1 l2 : list RadioStation) url :
  Radio_stationExists (l1 ++ l2) url = Radio_stationExists l1 url || Radio_stationExists l2 url.
Proof.
  induction l1 as [| s l1 IH]; [reflexivity |]. cbn.
  destruct (Player.chars_eqb (st_url s) url); [reflexivity | exact IH].
Qed.

Lemma url_index_exists (l : list RadioStation) url :
  url_index l url = None <-> Radio_stationExists l url = false.
Proof.
  induction l as [| s l IH]; [split; reflexivity |]. cbn.
  destruct (Player.chars_eqb (st_url s) url); [split; discriminate |].
  rewrite <- IH. destruct (url_index l url); cbn; split; congruence.
Qed.

Lemma url_index_split (l : list RadioStation) url i :
  url_index l url = Some i ->
  exists pre s post, l = pre ++ s :: post /\ length pre = i /\ st_url s = url /\
                     Radio_stationExists pre url = false.
Proof.
  revert i; induction l as [| s l IH]; intros i H; [discriminate |]. cbn in H.
  destruct (Player.chars_eqb (st_url s) url) eqn:E.
  - injection H as <-. apply chars_eqb_true in E.
    exists [], s, l. repeat split; auto.
  - destruct (url_index l url) as [j |] eqn:Hj; [| discriminate].
    injection H as <-. destruct (IH j eq_refl) as (pre & t & post & -> & Hl & Hu & He).
    exists (s :: pre), t, post. repeat split; cbn; auto. rewrite E. exact He.
Qed.

Lemma remove_at (pre post : list RadioStation) s :
  Radio_removeStation (pre ++ s :: post) (Z.of_nat (length pre)) = pre ++ post.
Proof.
  unfold Radio_removeStation. rewrite length_app. cbn [length].
  destruct (Z.of_nat (length pre) <? 0)%Z eqn:H1; [apply Z.ltb_lt in H1; lia |].
  destruct (Z.of_nat (length pre) >=? Z.of_nat (length pre + S (length post)))%Z eqn:H2.
  { apply Z.geb_le in H2. lia. }
  cbn [orb]. rewrite Nat2Z.id, firstn_app, firstn_all, Nat.sub_diag, firstn_O, app_nil_r.
  replace (S (length pre)) with (length pre + 1) by lia.
  rewrite skipn_app, skipn_all2 by lia.
  replace (length pre + 1 - length pre) with 1 by lia. reflexivity.
Qed.

(** [Radio_removeStationByUrl] returns [false] and keeps the list when no
    station has the URL (exactly when [Radio_stationExists] is false);
    otherwise it returns [true] and removes the first station with that
    URL, keeping the order of the others. *)
Theorem Radio_removeStationByUrl_spec (stations : list RadioStation) (url : list ascii) :
  if Radio_stationExists stations url then
    exists pre s post, stations = pre ++ s :: post /\ st_url s = url /\
      Radio_stationExists pre url = false /\
      Radio_removeStationByUrl stations url = (true, pre ++ post)
  else Radio_removeStationByUrl stations url = (false, stations).
Proof.
  unfold Radio_removeStationByUrl.
  destruct (Radio_stationExists stations url) eqn:E.
  - destruct (url_index stations url) as [i |] eqn:Hi.
    + destruct (url_index_split _ _ _ Hi) as (pre & s & post & -> & Hl & Hu & He).
      exists pre, s, post. repeat split; auto. rewrite <- Hl, remove_at. reflexivity.
    + apply url_index_exists in Hi. congruence.
  - apply url_index_exists in E. rewrite E. reflexivity.
Qed.

(** Adding a station with a URL that is not yet listed and fits in
    [RADIO_MAX_URL - 1] characters, to a list that is not full, returns the
    new index (the old count); afterwards the URL exists, and removing it
    by URL gives back the original list. *)
Theorem Radio_addStation_remove (MAXS MAXN MAXU : nat) (stations : list RadioStation)
    (name url : list ascii) (genre slogan : option (list ascii)) :
  length stations < MAXS -> length url < MAXU ->
  Radio_stationExists stations url = false ->
  let '(idx, stations') := Radio_addStation MAXS MAXN MAXU stations name url genre slogan in
  idx = Z.of_nat (length stations) /\ Radio_stationExists stations' url = true /\
  Radio_removeStationByUrl stations' url = (true, stations).
Proof.
  intros Hs Hu He. unfold Radio_addStation.
  destruct (Nat.leb_spec MAXS (length stations)) as [Hm | Hm]; [lia |].
  rewrite (firstn_all2 url) by lia.
  set (s := mkStation _ url _ _).
  split; [rewrite length_app; cbn [length]; lia |].
  assert (Hx : Radio_stationExists (stations ++ [s]) url = true).
  { rewrite exists_app, He. cbn. replace (Player.chars_eqb url url) with true; [reflexivity |].
    symmetry. apply chars_eqb_true. reflexivity. }
  split; [exact Hx |].
  pose proof (Radio_removeStationByUrl_spec (stations ++ [s]) url) as H.
  rewrite Hx in H. destruct H as (pre & t & post & Heq & Ht & Hp & ->).
  f_equal.
  destruct post as [| u post] using rev_ind.
  - rewrite app_nil_r. apply app_inj_tail in Heq as [-> _]. reflexivity.
  - exfalso. rewrite app_comm_cons, app_assoc in Heq. apply app_inj_tail in Heq as [Heq _].
    rewrite Heq, exists_app in He. cbn in He. rewrite Ht in He.
    replace (Player.chars_eqb url url) with true in He; [destruct (Radio_stationExists pre url); discriminate |].
    symmetry. apply chars_eqb_true. reflexivity.
Qed.

Lemma Radio_addStation_remove_witness :
  length (@nil RadioStation) < 16 /\ length (list_ascii_of_string "http://a.example/live") < 512 /\
  Radio_stationExists [] (list_ascii_of_string "http://a.example/live") = false /\
  let '(idx, stations') := Radio_addStation 16 128 512 [] (list_ascii_of_string "Jazz")
      (list_ascii_of_string "http://a.example/live") None None in
  idx = Z.of_nat (length (@nil RadioStation)) /\
  Radio_stationExists stations' (list_ascii_of_string "http://a.example/live") = true /\
  Radio_removeStationByUrl stations' (list_ascii_of_string "http://a.example/live") = (true, []).
Proof.
  split; [cbn; lia |]. split; [cbn; lia |]. split; [reflexivity |].
  exact (Radio_addStation_remove 16 128 512 [] (list_ascii_of_string "Jazz")
           (list_ascii_of_string "http://a.example/live") None None
           ltac:(cbn; lia) ltac:(cbn; lia) eq_refl).
Defined.

End StationFacts.

Module Mp3SyncFacts.
Local Open Scope Z_scope.

Lemma find_loop_spec (buf : list Z) (n i : nat) :
  let r := find_mp3_sync_loop buf i n in
  (r = -1 /\ forall j, (i <= j < i + n)%nat ->
     (nth j buf 0 =? 255) && (Z.land (nth (S j) buf 0) 224 =? 224) = false) \/
  (exists k, r = Z.of_nat k /\ (i <= k < i + n)%nat /\
     (nth k buf 0 =? 255) && (Z.land (nth (S k) buf 0) 224 =? 224) = true /\
     forall j, (i <= j < k)%nat ->
       (nth j buf 0 =? 255) && (Z.land (nth (S j) buf 0) 224 =? 224) = false).
Proof.
  revert i. induction n as [| n IH]; intros i; cbn.
  - left. split; [reflexivity | intros; lia].
  - destruct ((nth i buf 0 =? 255) && (Z.land (nth (S i) buf 0) 224 =? 224)) eqn:E.
    + right. exists i. repeat split; auto; try lia.
    + destruct (IH (S i)) as [[Hr Hn] | (k & Hr & Hk & Hs & Hb)].
      * left. split; [exact Hr |]. intros j Hj.
        destruct (Nat.eq_dec j i) as [-> | Hne]; [exact E |]. apply Hn. lia.
      * right. exists k. repeat split; auto; try lia. intros j Hj.
        destruct (Nat.eq_dec j i) as [-> | Hne]; [exact E |]. apply Hb. lia.
Qed.

(** [find_mp3_sync] returns the first index [i < size - 1] where a byte
    0xFF is followed by a byte with its top three bits set, and -1
    exactly when there is no such index. *)
Theorem find_mp3_sync_spec (buf : list Z) (size : Z) :
  let r := find_mp3_sync buf size in
  (r = -1 /\ forall i, Z.of_nat i < size - 1 ->
     (nth i buf 0 =? 255) && (Z.land (nth (S i) buf 0) 224 =? 224) = false) \/
  (0 <= r < size - 1 /\
   (nth (Z.to_nat r) buf 0 =? 255) && (Z.land (nth (S (Z.to_nat r)) buf 0) 224 =? 224) = true /\
   forall i, Z.of_nat i < r ->
     (nth i buf 0 =? 255) && (Z.land (nth (S i) buf 0) 224 =? 224) = false).
Proof.
  unfold find_mp3_sync. cbv zeta.
  destruct (find_loop_spec buf (Z.to_nat (size - 1)) 0) as [[Hr Hn] | (k & Hr & Hk & Hs & Hb)].
  - left. split; [exact Hr |]. intros i Hi. apply Hn. lia.
  - right. rewrite Hr, Nat2Z.id. repeat split; try lia; auto.
    intros i Hi. apply Hb. lia.
Qed.

End Mp3SyncFacts.

Module UrlFacts.
Import CStr.

Lemma existsb_firstn {A} (f : A -> bool) (l : list A) k :
  existsb f l = false -> existsb f (firstn k l) = false.
Proof.
  revert k; induction l as [| x l IH]; intros [| k] H; cbn in *; auto.
  apply orb_false_iff in H as [H1 H2]. rewrite H1, IH; auto.
Qed.

Lemma strchr_none (s : list ascii) c :
  strchr s c = None <-> existsb (Ascii.eqb c) s = false.
Proof.
  induction s as [| x s IH]; cbn; [split; reflexivity |].
  rewrite (Ascii.eqb_sym c x). destruct (Ascii.eqb x c); [split; discriminate |].
  rewrite <- IH. destruct (strchr s c); cbn; split; congruence.
Qed.

Lemma strchr_some (s : list ascii) c i :
  strchr s c = Some i ->
  i < length s /\ nth i s NUL = c /\ existsb (Ascii.eqb c) (firstn i s) = false.
Proof.
  revert i; induction s as [| x s IH]; intros i H; cbn in H; [discriminate |].
  destruct (Ascii.eqb x c) eqn:E.
  - injection H as <-. apply Ascii.eqb_eq in E. subst. cbn. repeat split; auto; lia.
  - destruct (strchr s c) as [j |]; [| discriminate]. injection H as <-.
    destruct (IH j eq_refl) as (H1 & H2 & H3). cbn. rewrite Ascii.eqb_sym, E, H3.
    repeat split; auto; lia.
Qed.

Lemma strchr_app_none (h rest : list ascii) c :
  existsb (Ascii.eqb c) h = false -> strchr (h ++ rest) c = option_map (Nat.add (length h)) (strchr rest c).
Proof.
  induction h as [| x h IH]; intros H; cbn in *.
  - destruct (strchr rest c); reflexivity.
  - apply orb_false_iff in H as [H1 H2]. rewrite Ascii.eqb_sym, H1, IH by exact H2.
    destruct (strchr rest c); reflexivity.
Qed.

Lemma strrchr_none (s : list ascii) c :
  existsb (Ascii.eqb c) s = false -> strrchr s c = None.
Proof.
  induction s as [| x s IH]; intros H; cbn in *; [reflexivity |].
  apply orb_false_iff in H as [H1 H2]. rewrite IH, Ascii.eqb_sym, H1 by exact H2. reflexivity.
Qed.

Lemma strrchr_last (d f : list ascii) c :
  existsb (Ascii.eqb c) f = false -> strrchr (d ++ c :: f) c = Some (length d).
Proof.
  intros Hf. induction d as [| x d IH]; cbn.
  - rewrite strrchr_none, Ascii.eqb_refl by exact Hf. reflexivity.
  - rewrite IH. reflexivity.
Qed.

Lemma strrchr_some (s : list ascii) c i :
  strrchr s c = Some i -> i < length s /\ nth i s NUL = c /\
  existsb (Ascii.eqb c) (skipn (S i) s) = false.
Proof.
  revert i; induction s as [| x s IH]; intros i H; cbn in H; [discriminate |].
  destruct (strrchr s c) as [j |] eqn:E.
  - injection H as <-. destruct (IH j eq_refl) as (H1 & H2 & H3). cbn. repeat split; auto; lia.
  - destruct (Ascii.eqb x c) eqn:Ex; [| discriminate]. injection H as <-.
    apply Ascii.eqb_eq in Ex. subst c. cbn. split; [lia |]. split; [reflexivity |].
    destruct (existsb (Ascii.eqb x) s) eqn:Hs; [| reflexivity]. exfalso.
    apply existsb_exists in Hs as (y & Hy & Hxy). apply Ascii.eqb_eq in Hxy. subst y.
    clear IH. induction s as [| z s IHs]; [contradiction |]. cbn in E.
    destruct (strrchr s x) eqn:E'; [discriminate |].
    destruct Hy as [-> | Hy]; [rewrite Ascii.eqb_refl in E; discriminate |].
    exact (IHs eq_refl Hy).
Qed.

Lemma firstn_S_nth (s : list ascii) i :
  i < length s -> firstn (S i) s = firstn i s ++ [nth i s NUL].
Proof.
  revert i; induction s as [| x s IH]; intros [| i] H; cbn in *; try lia; [reflexivity |].
  rewrite IH by lia. reflexivity.
Qed.

(** [get_base_url] is idempotent: the base of a base URL is itself. *)
Theorem get_base_url_idempotent (url : list ascii) (base_size : nat) :
  get_base_url (get_base_url url base_size) base_size = get_base_url url base_size.
Proof.
  unfold get_base_url at 2 3. set (base := firstn (base_size - 1) url).
  assert (Hb : length base <= base_size - 1) by (subst base; rewrite length_firstn; lia).
  destruct (strrchr base slash) as [i |] eqn:Hr.
  - destruct (strrchr_some _ _ _ Hr) as (Hi & Hn & _).
    destruct (Nat.ltb_spec 8 i).
    + unfold get_base_url. rewrite (firstn_all2 (firstn (S i) base))
        by (rewrite length_firstn; lia).
      rewrite (firstn_S_nth base i Hi), Hn, strrchr_last by reflexivity.
      rewrite length_firstn, Nat.min_l by lia.
      destruct (Nat.ltb_spec 8 i); [| lia].
      rewrite firstn_all2 by (rewrite length_app, length_firstn; cbn; lia). reflexivity.
    + unfold get_base_url. rewrite firstn_all2 by lia. rewrite Hr.
      destruct (Nat.ltb_spec 8 i); [lia | reflexivity].
  - unfold get_base_url. rewrite firstn_all2 by lia. rewrite Hr. reflexivity.
Qed.

Lemma resolve_relative (base rel : list ascii) n :
  prefixb http_prefix rel = false -> prefixb https_prefix rel = false ->
  hd_error rel <> Some slash -> 0 < n ->
  resolve_url base rel n = Written (firstn (n - 1) (base ++ rel)).
Proof.
  intros H1 H2 H3 Hn. unfold resolve_url. rewrite H1, H2. cbn [orb].
  destruct (Nat.eqb_spec n 0); [lia |].
  destruct rel as [| c rel]; [reflexivity |].
  destruct (Ascii.eqb_spec c slash); [subst; contradiction H3; reflexivity | reflexivity].
Qed.

(** A playlist URL [d/f] whose last slash comes after the ninth
    character has base URL [d/]; a relative segment name [r] (neither
    absolute nor starting with a slash) then resolves to [d/r] when it
    fits in the result buffer. *)
Theorem get_base_url_resolve (d f rel : list ascii) (n : nat) :
  existsb (Ascii.eqb slash) f = false -> 8 < length d ->
  length (d ++ slash :: f) < n ->
  prefixb http_prefix rel = false -> prefixb https_prefix rel = false ->
  hd_error rel <> Some slash -> length (d ++ slash :: rel) < n ->
  get_base_url (d ++ slash :: f) n = d ++ [slash] /\
  resolve_url (get_base_url (d ++ slash :: f) n) rel n = Written (d ++ slash :: rel).
Proof.
  intros Hf Hd Hu H1 H2 H3 Hr.
  assert (Hb : get_base_url (d ++ slash :: f) n = d ++ [slash]).
  { unfold get_base_url. rewrite firstn_all2 by lia. rewrite strrchr_last by exact Hf.
    destruct (Nat.ltb_spec 8 (length d)); [| lia].
    rewrite firstn_app, firstn_all2, Nat.sub_succ_l, Nat.sub_diag by lia. reflexivity. }
  split; [exact Hb |]. rewrite Hb, resolve_relative by (auto; lia).
  rewrite <- app_assoc. cbn [app]. rewrite firstn_all2 by (rewrite length_app in *; cbn in *; lia).
  reflexivity.
Qed.

Lemma get_base_url_resolve_witness :
  let d := list_ascii_of_string "http://radio.example/hls" in
  let f := list_ascii_of_string "live.m3u8" in
  let r := list_ascii_of_string "seg1.ts" in
  existsb (Ascii.eqb slash) f = false /\ 8 < length d /\
  length (d ++ slash :: f) < HLS_MAX_URL_LEN /\
  prefixb http_prefix r = false /\ prefixb https_prefix r = false /\
  hd_error r <> Some slash /\ length (d ++ slash :: r) < HLS_MAX_URL_LEN /\
  get_base_url (d ++ slash :: f) HLS_MAX_URL_LEN = d ++ [slash] /\
  resolve_url (get_base_url (d ++ slash :: f) HLS_MAX_URL_LEN) r HLS_MAX_URL_LEN =
    Written (d ++ slash :: r).
Proof.
  cbv zeta.
  assert (Hne : hd_error (list_ascii_of_string "seg1.ts") <> Some slash) by discriminate.
  split; [reflexivity |]. split; [cbn; lia |]. split; [cbn; unfold HLS_MAX_URL_LEN; lia |].
  split; [reflexivity |]. split; [reflexivity |]. split; [exact Hne |].
  split; [cbn; unfold HLS_MAX_URL_LEN; lia |].
  exact (get_base_url_resolve (list_ascii_of_string "http://radio.example/hls")
           (list_ascii_of_string "live.m3u8") (list_ascii_of_string "seg1.ts") HLS_MAX_URL_LEN
           eq_refl ltac:(cbn; lia) ltac:(cbn; unfold HLS_MAX_URL_LEN; lia) eq_refl eq_refl Hne
           ltac:(cbn; unfold HLS_MAX_URL_LEN; lia)).
Defined.


Lemma prefixb_app (p s : list ascii) : prefixb p (p ++ s) = true.
Proof. induction p as [| x p IH]; cbn; [reflexivity |]. rewrite Ascii.eqb_refl. exact IH. Qed.

Lemma prefixb_https_http (s : list ascii) : prefixb https_prefix (http_prefix ++ s) = false.
Proof. reflexivity. Qed.

Lemma skipn_https (s : list ascii) : skipn 8 (https_prefix ++ s) = s.
Proof. reflexivity. Qed.

Lemma skipn_http (s : list ascii) : skipn 7 (http_prefix ++ s) = s.
Proof. reflexivity. Qed.

Lemma digit_not (c : ascii) (ds : list ascii) :
  forallb is_digit ds = true -> is_digit c = false -> existsb (Ascii.eqb c) ds = false.
Proof.
  intros Hd Hc. induction ds as [| x ds IH]; [reflexivity |].
  cbn in Hd |- *. apply andb_prop in Hd as [Hx Hds].
  destruct (Ascii.eqb_spec c x); [subst; congruence |]. exact (IH Hds).
Qed.

Lemma atoi_digits_app (ds rest : list ascii) acc :
  forallb is_digit ds = true -> hd_error rest = Some slash ->
  atoi_digits (ds ++ rest) acc =
    fold_left (fun a c => (a * 10 + Z.of_nat (nat_of_ascii c - 48))%Z) ds acc.
Proof.
  revert acc; induction ds as [| d ds IH]; intros acc Hd Hr; cbn in *.
  - destruct rest as [| c rest]; [discriminate |]. injection Hr as ->. reflexivity.
  - apply andb_prop in Hd as [H1 H2]. rewrite H1. apply IH; assumption.
Qed.

Lemma fold_digits_nonneg (ds : list ascii) (acc : Z) :
  (0 <= acc)%Z ->
  (0 <= fold_left (fun a c => (a * 10 + Z.of_nat (nat_of_ascii c - 48))%Z) ds acc)%Z.
Proof.
  revert acc; induction ds as [| d ds IH]; intros acc Ha; cbn; [exact Ha |].
  apply IH. lia.
Qed.

Lemma strtol_digits_value_port (ds p : list ascii) :
  forallb is_digit ds = true ->
  strtol_digits_value (ds ++ slash :: p) =
    fold_left (fun a c => (a * 10 + Z.of_nat (nat_of_ascii c - 48))%Z) ds 0%Z.
Proof.
  intros Hd. destruct ds as [| d ds]; [reflexivity |].
  cbn [app strtol_digits_value]. cbn in Hd. apply andb_prop in Hd as [H1 H2].
  assert (Hs : is_space d = false).
  { unfold is_digit, is_space in *. apply andb_prop in H1 as [H1 _].
    apply Nat.leb_le in H1.
    destruct (Nat.eqb_spec (nat_of_ascii d) 32); [lia |].
    destruct (Nat.leb_spec 9 (nat_of_ascii d)), (Nat.leb_spec (nat_of_ascii d) 13);
      cbn; reflexivity || lia. }
  assert (Hm : forall c, nat_of_ascii c < 48 -> Ascii.eqb d c = false).
  { intros c Hc. destruct (Ascii.eqb_spec d c); [subst | reflexivity].
    unfold is_digit in H1. apply andb_prop in H1 as [H1 _]. apply Nat.leb_le in H1. lia. }
  rewrite Hs, (Hm "-"%char), (Hm "+"%char) by (cbn; lia).
  exact (atoi_digits_app (d :: ds) (slash :: p) 0%Z ltac:(cbn; rewrite H1; exact H2) eq_refl).
Qed.

Lemma atoi_port (ds p : list ascii) :
  forallb is_digit ds = true ->
  (fold_left (fun a c => (a * 10 + Z.of_nat (nat_of_ascii c - 48))%Z) ds 0%Z
     <= 2 ^ 31 - 1)%Z ->
  atoi (ds ++ slash :: p) =
    fold_left (fun a c => (a * 10 + Z.of_nat (nat_of_ascii c - 48))%Z) ds 0%Z.
Proof.
  intros Hd Hm. unfold atoi, strtol10, to_int, LONG_MIN, LONG_MAX.
  rewrite strtol_digits_value_port by exact Hd.
  pose proof (fold_digits_nonneg ds 0 (Z.le_refl 0)) as H0.
  set (v := fold_left _ ds 0%Z) in *.
  rewrite Z.min_r by lia. rewrite Z.max_r by lia.
  rewrite Z.mod_small by lia. lia.
Qed.

(** [parse_url] takes [http://host:port/path] or [https://host:port/path]
    apart: for a host without [:] or [/] shorter than 256 characters, a
    decimal port of at most [INT_MAX] (2^31 - 1) and a path shorter than
    512 characters with its slash, it returns the host, the decimal value
    of the port, the path from its slash on and whether the scheme is
    https. *)
Theorem parse_url_with_port (https : bool) (h ds p : list ascii) :
  existsb (Ascii.eqb colon) h = false -> existsb (Ascii.eqb slash) h = false ->
  forallb is_digit ds = true ->
  (fold_left (fun a c => (a * 10 + Z.of_nat (nat_of_ascii c - 48))%Z) ds 0%Z
     <= 2 ^ 31 - 1)%Z ->
  length h < 256 -> length p < 511 ->
  parse_url ((if https then https_prefix else http_prefix) ++ h ++ colon :: ds ++ slash :: p) =
    UrlOk h (fold_left (fun a c => (a * 10 + Z.of_nat (nat_of_ascii c - 48))%Z) ds 0%Z)
          (slash :: p) https.
Proof.
  intros Hc Hs Hd Hm Hh Hp.
  assert (Hslash : strchr (h ++ colon :: ds ++ slash :: p) slash =
                   Some (length h + S (length ds))).
  { rewrite strchr_app_none by exact Hs. cbn [strchr].
    replace (Ascii.eqb colon slash) with false by reflexivity.
    rewrite strchr_app_none by (apply digit_not; [exact Hd | reflexivity]).
    cbn [strchr]. rewrite Ascii.eqb_refl. cbn. f_equal. lia. }
  assert (Hcolon : strchr (h ++ colon :: ds ++ slash :: p) colon = Some (length h)).
  { rewrite strchr_app_none by exact Hc. cbn [strchr]. rewrite Ascii.eqb_refl.
    cbn. f_equal. lia. }
  assert (Hpath : firstn (Z.to_nat (512 - 1)) (skipn (length h + S (length ds))
                    (h ++ colon :: ds ++ slash :: p)) = slash :: p).
  { rewrite skipn_app, skipn_all2 by lia. replace (length h + S (length ds) - length h)
      with (S (length ds)) by lia. cbn [skipn app].
    rewrite skipn_app, skipn_all, Nat.sub_diag. cbn. apply firstn_all2. cbn; lia. }
  assert (Hhost : firstn (length h) (h ++ colon :: ds ++ slash :: p) = h).
  { rewrite firstn_app, firstn_all, Nat.sub_diag, firstn_O, app_nil_r. reflexivity. }
  assert (Hlt : (Z.of_nat (length h) >=? 256)%Z = false).
  { rewrite Z.geb_leb. apply Z.leb_gt. lia. }
  destruct https; unfold parse_url, parse_url_safe;
    [rewrite prefixb_app | rewrite prefixb_https_http, prefixb_app];
    cbv beta iota zeta; rewrite ?skipn_https, ?skipn_http;
    change ((256 <? 1)%Z || (512 <? 1)%Z) with false; cbv beta iota;
    rewrite Hslash; cbv beta iota; rewrite Hcolon; cbv beta iota;
    destruct (Nat.ltb_spec (length h) (length h + S (length ds))); try lia;
    rewrite TagTextFacts.skipn_key, atoi_port by assumption;
    rewrite Hlt, Hhost, Hpath; reflexivity.
Qed.

Lemma parse_url_with_port_witness :
  existsb (Ascii.eqb colon) (list_ascii_of_string "radio.example") = false /\
  existsb (Ascii.eqb slash) (list_ascii_of_string "radio.example") = false /\
  forallb is_digit (list_ascii_of_string "8000") = true /\
  (fold_left (fun a c => (a * 10 + Z.of_nat (nat_of_ascii c - 48))%Z)
     (list_ascii_of_string "8000") 0%Z <= 2 ^ 31 - 1)%Z /\
  length (list_ascii_of_string "radio.example") < 256 /\
  length (list_ascii_of_string "live") < 511 /\
  parse_url (https_prefix ++ list_ascii_of_string "radio.example" ++ colon ::
             list_ascii_of_string "8000" ++ slash :: list_ascii_of_string "live") =
    UrlOk (list_ascii_of_string "radio.example")
      (fold_left (fun a c => (a * 10 + Z.of_nat (nat_of_ascii c - 48))%Z)
         (list_ascii_of_string "8000") 0%Z)
      (slash :: list_ascii_of_string "live") true.
Proof.
  split; [reflexivity |]. split; [reflexivity |]. split; [reflexivity |].
  split; [vm_compute; discriminate |].
  split; [cbn; lia |]. split; [cbn; lia |].
  exact (parse_url_with_port true (list_ascii_of_string "radio.example")
           (list_ascii_of_string "8000") (list_ascii_of_string "live")
           eq_refl eq_refl eq_refl ltac:(vm_compute; discriminate)
           ltac:(cbn; lia) ltac:(cbn; lia)).
Defined.

(** Without an explicit port, [parse_url] gives port 443 for https and 80
    for http, whatever the path holds (a [:] after the first slash is not
    a port); a URL with no path gets the path "/". *)
Theorem parse_url_default_port (https : bool) (h p : list ascii) :
  existsb (Ascii.eqb colon) h = false -> existsb (Ascii.eqb slash) h = false ->
  length h < 256 -> length p < 511 ->
  parse_url ((if https then https_prefix else http_prefix) ++ h ++ slash :: p) =
    UrlOk h (if https then 443 else 80)%Z (slash :: p) https /\
  parse_url ((if https then https_prefix else http_prefix) ++ h) =
    UrlOk h (if https then 443 else 80)%Z [slash] https.
Proof.
  intros Hc Hs Hh Hp.
  assert (Hslash : strchr (h ++ slash :: p) slash = Some (length h)).
  { rewrite strchr_app_none by exact Hs. cbn [strchr]. rewrite Ascii.eqb_refl.
    cbn. f_equal. lia. }
  assert (Hcolon : exists k, strchr (h ++ slash :: p) colon = None \/
                             strchr (h ++ slash :: p) colon = Some (length h + S k)).
  { rewrite strchr_app_none by exact Hc. cbn [strchr].
    replace (Ascii.eqb slash colon) with false by reflexivity.
    destruct (strchr p colon) as [k |]; [exists k; right; reflexivity | exists 0; left; reflexivity]. }
  destruct Hcolon as [k Hcolon].
  assert (Hpath : firstn (Z.to_nat (512 - 1)) (skipn (length h) (h ++ slash :: p)) = slash :: p).
  { rewrite skipn_app, skipn_all, Nat.sub_diag. apply firstn_all2. cbn; lia. }
  assert (Hhost : forall rest, firstn (length h) (h ++ rest) = h).
  { intros rest. rewrite firstn_app, firstn_all, Nat.sub_diag, firstn_O, app_nil_r. reflexivity. }
  assert (Hlt : (Z.of_nat (length h) >=? 256)%Z = false).
  { rewrite Z.geb_leb. apply Z.leb_gt. lia. }
  assert (Hn1 : strchr h slash = None) by (apply strchr_none; exact Hs).
  assert (Hn2 : strchr h colon = None) by (apply strchr_none; exact Hc).
  destruct https; unfold parse_url, parse_url_safe;
    (split; [| rewrite <- (app_nil_r h) at 2]);
    [rewrite prefixb_app | rewrite prefixb_app | rewrite prefixb_https_http, prefixb_app
    | rewrite prefixb_https_http, prefixb_app];
    cbv beta iota zeta; rewrite ?skipn_https, ?skipn_http;
    change ((256 <? 1)%Z || (512 <? 1)%Z) with false; cbv beta iota;
    rewrite ?app_nil_r, ?Hslash, ?Hn1; cbv beta iota;
    try (destruct Hcolon as [Hcolon | Hcolon]; rewrite Hcolon; cbv beta iota;
         [| destruct (Nat.ltb_spec (length h + S k) (length h)); [lia |]]);
    try (change ((512 <? 2)%Z) with false; cbv beta iota; rewrite Hn2; cbv beta iota);
    rewrite ?Hlt, ?Hhost, ?Hpath, ?firstn_all; reflexivity.
Qed.

Lemma parse_url_default_port_witness :
  existsb (Ascii.eqb colon) (list_ascii_of_string "a.example") = false /\
  existsb (Ascii.eqb slash) (list_ascii_of_string "a.example") = false /\
  length (list_ascii_of_string "a.example") < 256 /\
  length (list_ascii_of_string "x:y") < 511 /\
  parse_url (http_prefix ++ list_ascii_of_string "a.example" ++ slash :: list_ascii_of_string "x:y") =
    UrlOk (list_ascii_of_string "a.example") 80%Z (slash :: list_ascii_of_string "x:y") false /\
  parse_url (http_prefix ++ list_ascii_of_string "a.example") =
    UrlOk (list_ascii_of_string "a.example") 80%Z [slash] false.
Proof.
  split; [reflexivity |]. split; [reflexivity |]. split; [cbn; lia |]. split; [cbn; lia |].
  exact (parse_url_default_port false (list_ascii_of_string "a.example")
           (list_ascii_of_string "x:y") eq_refl eq_refl ltac:(cbn; lia) ltac:(cbn; lia)).
Defined.

Lemma skipn_nth_cons (s : list ascii) i d :
  i < length s -> skipn i s = nth i s d :: skipn (S i) s.
Proof.
  revert i; induction s as [| x s IH]; intros [| i] H; cbn in *; try lia; [reflexivity |].
  apply IH. lia.
Qed.

Lemma existsb_firstn_le (c : ascii) (s : list ascii) k i :
  existsb (Ascii.eqb c) (firstn i s) = false -> k <= i ->
  existsb (Ascii.eqb c) (firstn k s) = false.
Proof.
  intros H Hk. replace k with (Nat.min k i) by lia. rewrite <- firstn_firstn.
  apply existsb_firstn. exact H.
Qed.

(** Whatever the URL, [parse_url_safe] fails (-1) exactly when a buffer
    size is below 1 and writes past [path] only for a path buffer of size
    1; when it succeeds, the host
    is shorter than [host_size] and holds no [/] and no [:], and the path
    is shorter than [path_size] and starts with [/] when [path_size] is at
    least 2. *)
Theorem parse_url_safe_result (url : list ascii) (host_size path_size : Z) :
  match parse_url_safe url host_size path_size with
  | UrlError => (host_size < 1 \/ path_size < 1)%Z
  | UrlOverflow => path_size = 1%Z /\ (1 <= host_size)%Z
  | UrlOk host port path is_https =>
      (Z.of_nat (length host) < host_size)%Z /\
      existsb (Ascii.eqb slash) host = false /\ existsb (Ascii.eqb colon) host = false /\
      (Z.of_nat (length path) < path_size)%Z /\
      ((1 < path_size)%Z -> hd_error path = Some slash)
  end.
Proof.
  unfold parse_url_safe.
  destruct ((host_size <? 1)%Z || (path_size <? 1)%Z) eqn:E0.
  { apply orb_true_iff in E0 as [E | E]; apply Z.ltb_lt in E; lia. }
  apply orb_false_iff in E0 as [E1 E2]. apply Z.ltb_ge in E1, E2.
  destruct (prefixb https_prefix url); [| destruct (prefixb http_prefix url)];
    cbv beta iota zeta;
    [generalize (skipn 8 url) | generalize (skipn 7 url) | generalize url];
    intros start.
  all: destruct (strchr start slash) as [i |] eqn:Hs.
  all: try (destruct (Z.ltb_spec path_size 2); [lia |]).
  all: destruct (strchr start colon) as [j |] eqn:Hc.
  all: try (destruct (Nat.ltb_spec j i) as [Hji | Hji]).
  all: try (destruct (Nat.ltb_spec j (length start)) as [Hji | Hji]).
  all: cbv beta iota.
  all: try (apply strchr_some in Hs as (Hi & Hn & Hsf)).
  all: try (apply strchr_some in Hc as (Hj & Hm & Hcf)).
  all: try (apply strchr_none in Hs).
  all: try (apply strchr_none in Hc).
  all: match goal with
       | |- context [if (Z.of_nat ?l >=? ?hs)%Z then _ else _] =>
           set (hl := if (Z.of_nat l >=? hs)%Z then _ else _);
           assert (Hhl : hl <= l /\ (Z.of_nat hl < hs)%Z)
             by (subst hl; destruct (Z.geb_spec (Z.of_nat l) hs); lia)
       end.
  all: split; [rewrite length_firstn; lia |].
  all: split; [first [eapply existsb_firstn_le; [eassumption | lia]
                    | apply existsb_firstn; assumption] |].
  all: split; [first [eapply existsb_firstn_le; [eassumption | lia]
                    | apply existsb_firstn; assumption] |].
  all: split; [first [rewrite length_firstn; lia | cbn; lia] |].
  all: intros Hp; try reflexivity.
  all: rewrite (skipn_nth_cons start i NUL Hi), Hn.
  all: replace (Z.to_nat (path_size - 1)) with (S (Z.to_nat (path_size - 2))) by lia.
  all: reflexivity.
Qed.

(** An absolute [relative] (starting with [http://] or [https://]) is
    copied to [result] as it is when it fits, whatever the base. *)
Theorem resolve_url_absolute (base relative : list ascii) (result_size : nat) :
  prefixb http_prefix relative || prefixb https_prefix relative = true ->
  length relative < result_size ->
  resolve_url base relative result_size = Written relative.
Proof.
  intros Ha Hl. unfold resolve_url. rewrite Ha.
  destruct (Nat.eqb_spec result_size 0); [lia |]. rewrite firstn_all2 by lia. reflexivity.
Qed.

Lemma resolve_url_absolute_witness :
  prefixb http_prefix (list_ascii_of_string "https://cdn.example/s1.ts") ||
  prefixb https_prefix (list_ascii_of_string "https://cdn.example/s1.ts") = true /\
  length (list_ascii_of_string "https://cdn.example/s1.ts") < HLS_MAX_URL_LEN /\
  resolve_url (list_ascii_of_string "http://radio.example/hls/")
    (list_ascii_of_string "https://cdn.example/s1.ts") HLS_MAX_URL_LEN =
    Written (list_ascii_of_string "https://cdn.example/s1.ts").
Proof.
  split; [reflexivity |]. split; [cbn; unfold HLS_MAX_URL_LEN; lia |].
  exact (resolve_url_absolute (list_ascii_of_string "http://radio.example/hls/")
           (list_ascii_of_string "https://cdn.example/s1.ts") HLS_MAX_URL_LEN
           eq_refl ltac:(cbn; unfold HLS_MAX_URL_LEN; lia)).
Defined.

(** A root-relative [/q] against [scheme://host/anything] resolves to
    [scheme://host/q] when it fits in [result]. *)
Theorem resolve_url_root (https : bool) (h rest q : list ascii) (result_size : nat) :
  existsb (Ascii.eqb slash) h = false ->
  length ((if https then https_prefix else http_prefix) ++ h ++ slash :: q) < result_size ->
  resolve_url ((if https then https_prefix else http_prefix) ++ h ++ slash :: rest)
    (slash :: q) result_size =
  Written ((if https then https_prefix else http_prefix) ++ h ++ slash :: q).
Proof.
  intros Hs Hl.
  assert (Hh : strchr (h ++ slash :: rest) slash = Some (length h)).
  { rewrite strchr_app_none by exact Hs. cbn [strchr]. rewrite Ascii.eqb_refl.
    cbn. f_equal. lia. }
  unfold resolve_url.
  change (prefixb http_prefix (slash :: q) || prefixb https_prefix (slash :: q)) with false.
  cbv beta iota. rewrite Ascii.eqb_refl.
  destruct https; rewrite !length_app in Hl; simpl in Hl.
  - change (strstr (https_prefix ++ h ++ slash :: rest) (list_ascii_of_string "://"))
      with (Some 5). cbv beta iota.
    change (skipn (5 + 3) (https_prefix ++ h ++ slash :: rest)) with (h ++ slash :: rest).
    rewrite Hh. destruct (Nat.leb_spec result_size (5 + 3 + length h)); [lia |].
    f_equal. replace (5 + 3 + length h) with (length (https_prefix ++ h)) by reflexivity.
    rewrite app_assoc, firstn_app, firstn_all, Nat.sub_diag, firstn_O, app_nil_r.
    rewrite firstn_all2 by (cbn [length]; rewrite length_app in *; cbn in *; lia).
    rewrite <- app_assoc. reflexivity.
  - change (strstr (http_prefix ++ h ++ slash :: rest) (list_ascii_of_string "://"))
      with (Some 4). cbv beta iota.
    change (skipn (4 + 3) (http_prefix ++ h ++ slash :: rest)) with (h ++ slash :: rest).
    rewrite Hh. destruct (Nat.leb_spec result_size (4 + 3 + length h)); [lia |].
    f_equal. replace (4 + 3 + length h) with (length (http_prefix ++ h)) by reflexivity.
    rewrite app_assoc, firstn_app, firstn_all, Nat.sub_diag, firstn_O, app_nil_r.
    rewrite firstn_all2 by (cbn [length]; rewrite length_app in *; cbn in *; lia).
    rewrite <- app_assoc. reflexivity.
Qed.

Lemma resolve_url_root_witness :
  existsb (Ascii.eqb slash) (list_ascii_of_string "radio.example") = false /\
  length (https_prefix ++ list_ascii_of_string "radio.example" ++ slash ::
          list_ascii_of_string "seg/7.ts") < HLS_MAX_URL_LEN /\
  resolve_url (https_prefix ++ list_ascii_of_string "radio.example" ++ slash ::
                 list_ascii_of_string "hls/live.m3u8")
    (slash :: list_ascii_of_string "seg/7.ts") HLS_MAX_URL_LEN =
  Written (https_prefix ++ list_ascii_of_string "radio.example" ++ slash ::
           list_ascii_of_string "seg/7.ts").
Proof.
  split; [reflexivity |]. split; [cbn; unfold HLS_MAX_URL_LEN; lia |].
  exact (resolve_url_root true (list_ascii_of_string "radio.example")
           (list_ascii_of_string "hls/live.m3u8") (list_ascii_of_string "seg/7.ts")
           HLS_MAX_URL_LEN eq_refl ltac:(cbn; unfold HLS_MAX_URL_LEN; lia)).
Defined.


End UrlFacts.
